(** * fork_shim: the fork() interposer and its whitelist matcher

    A shallow embedding of [src/fork_shim.c].  The file has two functions:
    [check_wl_config], which scans [/etc/oom_whitelist] for one candidate
    string, and [fork], which wraps the real fork, reads
    [/proc/PID/cmdline] and writes [/proc/PID/oom_score_adj].

    Modelling decisions, all taken from the C text:
    - a C string is the list of its bytes, the terminating NUL left out;
      a buffer filled by [fgets] is cut at its first NUL byte before the
      string functions look at it;
    - a [char *] that may be [NULL] is an [option];
    - undefined behaviour (a NULL handed to [strcmp]/[strstr], a NULL
      [FILE *] handed to [getdelim]/[fprintf], [free] of a pointer into the
      middle of a block) is an outcome of its own, [Undefined];
    - the buffer [last] of [check_wl_config] is read before it is written:
      its initial bytes are an input of the model ([uninit]);
    - the file system is a function from paths to files; [access] asks
      whether the path is there, [fopen] may still fail on a path that is;
    - the two diagnostic logs under [/tmp] are left out: the model reads
      both as opened and records nothing of what is printed to them (a
      NULL printed with [%s] comes out as [(null)] under glibc);
    - [catch_bad_things] is a C [int]; its increment is written with the
      two's-complement wrap-around. *)

From Stdlib Require Import ZArith List Ascii String Bool Lia.
Import ListNotations.

Local Open Scope Z_scope.

(** ** C strings *)

Definition cstring := list ascii.

Definition lit (s : string) : cstring := list_ascii_of_string s.

Module C.

Definition nul : ascii := "000"%char.
Definition nl : ascii := "010"%char.
Definition slash : ascii := "/"%char.
Definition space : ascii := " "%char.
Definition bang : ascii := "!"%char.
Definition hash : ascii := "#"%char.

(** The C string held by a buffer: the bytes before the first NUL. *)
Fixpoint cstr (buf : list ascii) : cstring :=
  match buf with
  | [] => []
  | c :: rest => if Ascii.eqb c nul then [] else c :: cstr rest
  end.

Definition strlen (s : cstring) : Z := Z.of_nat (List.length s).

(** [strcmp(a, b) == 0] *)
Fixpoint streq (a b : cstring) : bool :=
  match a, b with
  | [], [] => true
  | x :: a', y :: b' => Ascii.eqb x y && streq a' b'
  | _, _ => false
  end.

Fixpoint is_prefix (p s : cstring) : bool :=
  match p, s with
  | [], _ => true
  | x :: p', y :: s' => Ascii.eqb x y && is_prefix p' s'
  | _ :: _, [] => false
  end.

(** [strstr(haystack, needle) != NULL] *)
Fixpoint strstr (haystack needle : cstring) : bool :=
  is_prefix needle haystack
  || match haystack with
     | [] => false
     | _ :: rest => strstr rest needle
     end.

(** [s[0] == c]; on the empty string [s[0]] is the terminator. *)
Definition first_is (c : ascii) (s : cstring) : bool :=
  match s with
  | [] => Ascii.eqb nul c
  | x :: _ => Ascii.eqb x c
  end.

(** [strrchr(s, c)]: the suffix of [s] that starts at the last [c]. *)
Fixpoint strrchr (s : cstring) (c : ascii) : option cstring :=
  match s with
  | [] => None
  | x :: rest =>
      match strrchr rest c with
      | Some found => Some found
      | None => if Ascii.eqb x c then Some s else None
      end
  end.

(** The pieces of [s] between occurrences of [d]. *)
Fixpoint split (d : ascii) (s : list ascii) : list (list ascii) :=
  match s with
  | [] => [[]]
  | x :: rest =>
      if Ascii.eqb x d then [] :: split d rest
      else match split d rest with
           | piece :: more => (x :: piece) :: more
           | [] => [[x]]
           end
  end.

Definition is_empty (s : list ascii) : bool :=
  match s with [] => true | _ => false end.

(** The tokens that [strtok(s, d)], [strtok(NULL, d)], ... return, in
    order, until it returns NULL. *)
Definition strtok_all (d : ascii) (s : cstring) : list cstring :=
  filter (fun t => negb (is_empty t)) (split d s).

(** [snprintf(buf, size, "%s", s)]: at most [size - 1] bytes are kept. *)
Definition snprintf_s (size : nat) (s : cstring) : cstring :=
  firstn (size - 1) s.

(** [fgets(buf, n, stream)]: up to [n - 1] bytes, stopping after a line
    feed; [None] at end of file. *)
Fixpoint fgets_aux (k : nat) (stream : list ascii)
  : list ascii * list ascii :=
  match k, stream with
  | S k', c :: rest =>
      if Ascii.eqb c nl then ([c], rest)
      else let '(l, r) := fgets_aux k' rest in (c :: l, r)
  | _, _ => ([], stream)
  end.

Definition fgets (n : nat) (stream : list ascii)
  : option (list ascii * list ascii) :=
  match stream with
  | [] => None
  | _ => Some (fgets_aux (n - 1) stream)
  end.

(** All the reads of a [while (fgets(buf, n, f) != NULL)] loop. *)
Fixpoint fgets_loop (fuel n : nat) (stream : list ascii)
  : list (list ascii) :=
  match fuel with
  | O => []
  | S fuel' =>
      match fgets n stream with
      | None => []
      | Some (buf, rest) => buf :: fgets_loop fuel' n rest
      end
  end.

Definition fgets_all (n : nat) (stream : list ascii) : list (list ascii) :=
  fgets_loop (List.length stream) n stream.

(** The records that [getdelim(&p, &size, 0, f)] returns until it
    returns -1: the pieces between NUL bytes; the bytes after the last
    NUL are a record when there are any. *)
Definition getdelim_all (stream : list ascii) : list cstring :=
  let pieces := split nul stream in
  if is_empty (List.last pieces []) then removelast pieces else pieces.

(** ["%d"] of a C [int]. *)
Definition digit (d : Z) : ascii := ascii_of_nat (48 + Z.to_nat d).

Fixpoint digits (fuel : nat) (n : Z) (acc : cstring) : cstring :=
  match fuel with
  | O => acc
  | S fuel' =>
      let acc' := digit (n mod 10) :: acc in
      if n <? 10 then acc' else digits fuel' (n / 10) acc'
  end.

(** Ten digits are enough for every 32-bit value. *)
Definition dec (n : Z) : cstring :=
  if n <? 0 then "-"%char :: digits 10 (- n) [] else digits 10 n [].

(** [i + 1] on a 32-bit [int]. *)
Definition int_incr (i : Z) : Z :=
  let j := i + 1 in
  if j <? 2 ^ 31 then j else j - 2 ^ 32.

End C.

(** ** The world around the two functions *)

(** A path that [access(path, F_OK)] finds.  [f_read] is what
    [fopen(path, "r")] gives: the bytes of the file, or [None] when the
    open fails.  [f_write] says whether [fopen(path, "w")] succeeds. *)
Record file := { f_read : option (list ascii); f_write : bool }.

Definition filesystem := cstring -> option file.

(** What a function does when it is called. *)
Inductive outcome :=
| Returns (v : Z)
| Undefined.

(** The bytes found in [last] when [check_wl_config] is entered, and the
    byte just below the buffer, which [last[strlen(last) - 1]] reads when
    [last] starts with a NUL.  The stale bytes are read as a string that
    ends inside [last]. *)
Record uninit := { last_init : cstring; below_last : ascii }.

(** ** check_wl_config *)

Inductive mode := Exact | Substring.

Record entry := { e_mode : mode; e_pattern : cstring }.

(** The locals that live across iterations of the read loop. *)
Record wl_state := { catch_bad_things : Z; last : cstring }.

Module Whitelist.

Import C.

Definition fileName : cstring := lit "/etc/oom_whitelist".

(** [sizeof(wl_proc_name)], [sizeof(real)] and [sizeof(last)]. *)
Definition bufsize : nat := 129.

(** What one pass through the loop body does with the buffer it read,
    up to the comparison with [proc_name]: [Skip] stands for the
    [continue]s, [Compare] for a line that reaches [strcmp] or
    [strstr], together with the locals as they are left when the
    comparison fails. *)
Inductive line_class :=
| Skip (st : wl_state)
| Compare (e : entry) (st : wl_state).

Definition last_byte (u : uninit) (s : cstring) : ascii :=
  List.last s (below_last u).

(** A line that begins with a bang is compared with [strcmp], the bang
    moved out by [memmove]; any other line is searched with [strstr]. *)
Definition entry_of_line (wl_proc_name : cstring) : entry :=
  if first_is bang wl_proc_name
  then {| e_mode := Exact; e_pattern := tl wl_proc_name |}
  else {| e_mode := Substring; e_pattern := wl_proc_name |}.

(** The text of the line an entry was made from. *)
Definition entry_line (e : entry) : cstring :=
  match e_mode e with
  | Exact => bang :: e_pattern e
  | Substring => e_pattern e
  end.

Definition read_line (u : uninit) (st : wl_state) (buf : list ascii)
  : line_class :=
  let wl_proc_name := cstr buf in
  if negb (strstr wl_proc_name [nl]) then
    Skip {| catch_bad_things := int_incr (catch_bad_things st);
            last := last st |}
  else
    let real := snprintf_s (bufsize - 1) wl_proc_name in
    let wl_proc_name := removelast wl_proc_name in
    if strlen wl_proc_name =? 0 then Skip st
    else if first_is hash wl_proc_name then Skip st
    else if negb (Ascii.eqb (last_byte u (last st)) nl)
            && (catch_bad_things st >? 0)
    then Skip {| catch_bad_things := catch_bad_things st;
                 last := snprintf_s (bufsize - 1) real |}
    else
      Compare (entry_of_line wl_proc_name)
              {| catch_bad_things := int_incr (catch_bad_things st);
                 last := snprintf_s (bufsize - 1) real |}.

(** [strcmp(wl_proc_name, proc_name) == 0] for a line that began with
    a bang, [strstr(wl_proc_name, proc_name) != NULL] for the others. *)
Definition entry_matches (proc_name : cstring) (e : entry) : bool :=
  match e_mode e with
  | Exact => streq (e_pattern e) proc_name
  | Substring => strstr (e_pattern e) proc_name
  end.

(** The result of the loop, and (ghost) the entries that were handed to
    [strcmp]/[strstr] on the way, in order. *)
Record scan := { result : outcome; compared : list entry }.

Fixpoint wl_loop (u : uninit) (proc_name : option cstring)
         (st : wl_state) (reads : list (list ascii)) : scan :=
  match reads with
  | [] => {| result := Returns 0; compared := [] |}
  | buf :: rest =>
      match read_line u st buf with
      | Skip st' => wl_loop u proc_name st' rest
      | Compare e st' =>
          match proc_name with
          | None => {| result := Undefined; compared := [e] |}
          | Some p =>
              if entry_matches p e
              then {| result := Returns 1; compared := [e] |}
              else let r := wl_loop u proc_name st' rest in
                   {| result := result r; compared := e :: compared r |}
          end
      end
  end.

Definition wl_init (u : uninit) : wl_state :=
  {| catch_bad_things := 0; last := last_init u |}.

Definition scan_file (u : uninit) (proc_name : option cstring)
           (content : list ascii) : scan :=
  wl_loop u proc_name (wl_init u) (fgets_all (bufsize - 1) content).

Definition check_wl_config (fs : filesystem) (u : uninit)
           (proc_name : option cstring) : outcome :=
  match fs fileName with
  | None => Returns 0
  | Some f =>
      match f_read f with
      | None => Returns 0
      | Some content => result (scan_file u proc_name content)
      end
  end.

(** The lines of a read sequence that reach the comparison when no
    comparison succeeds: the entries of the list as the loop sees them. *)
Fixpoint wl_entries (u : uninit) (st : wl_state)
         (reads : list (list ascii)) : list entry :=
  match reads with
  | [] => []
  | buf :: rest =>
      match read_line u st buf with
      | Skip st' => wl_entries u st' rest
      | Compare e st' => e :: wl_entries u st' rest
      end
  end.

Definition entries_of (u : uninit) (content : list ascii) : list entry :=
  wl_entries u (wl_init u) (fgets_all (bufsize - 1) content).

(** The elements of [l] up to and including the first that satisfies [f]. *)
Fixpoint through_first {A : Type} (f : A -> bool) (l : list A) : list A :=
  match l with
  | [] => []
  | x :: rest => if f x then [x] else x :: through_first f rest
  end.

(** A list written one entry per line, every line ended by a line feed. *)
Definition text_of (lines : list cstring) : list ascii :=
  List.concat (map (fun l => l ++ [nl]) lines).

(** The lines that are entries: neither empty nor comments. *)
Definition is_entry_line (l : cstring) : bool :=
  negb (is_empty l) && negb (first_is hash l).

(** A line that one read takes whole, line feed included, and that holds
    no NUL byte. *)
Definition well_formed_line (l : cstring) : Prop :=
  ~ In nl l /\ ~ In nul l /\ (List.length l < bufsize - 2)%nat.

(** Locals with which the test on [last] and [catch_bad_things] cannot
    succeed. *)
Definition settled (u : uninit) (st : wl_state) : Prop :=
  catch_bad_things st = 0 \/ last_byte u (last st) = nl.

End Whitelist.

(** ** fork *)

Module Shim.

Import C.

(** What one call of [fork] meets: the value the real [fork] returns, the
    file system, and the stale bytes that the [n]-th call of
    [check_wl_config] finds on its stack. *)
Record world := {
  org_fork : Z;
  fs : filesystem;
  stack : nat -> uninit
}.

(** What one call of [fork] does: how it ends, the scores printed to the
    score file ([path], value) and (ghost) the arguments handed to
    [check_wl_config], in order. *)
Record run := {
  ret : outcome;
  written : list (cstring * Z);
  checked : list (option cstring)
}.

Definition oomValue : Z := 1000.
Definition whitelistValue : Z := -1000.

(** The score file and the cmdline file of process [pid]: what the two
    formats expand to. *)
Definition oom_path (pid : Z) : cstring :=
  lit "/proc/" ++ dec pid ++ lit "/oom_score_adj".

Definition cmdline_path (pid : Z) : cstring :=
  lit "/proc/" ++ dec pid ++ lit "/cmdline".

(** [snprintf(fileName, sizeof(fileName), "/proc/%d/oom_score_adj", pid)]
    with [char fileName[25+1]]. *)
Definition fileName (pid : Z) : cstring := snprintf_s 26 (oom_path pid).

(** [snprintf(cmdFileName, sizeof(cmdFileName), "/proc/%d/cmdline", pid)]
    with [char cmdFileName[19+1]]. *)
Definition cmdFileName (pid : Z) : cstring :=
  snprintf_s 20 (cmdline_path pid).

Definition stop (r : outcome) : run :=
  {| ret := r; written := []; checked := [] |}.

Definition after_checks (l : list (option cstring)) (r : run) : run :=
  {| ret := ret r; written := written r; checked := l ++ checked r |}.

(** [fprintf(oomFile, "%i\n", value); fclose(oomFile);] and what follows
    it; [oomFile] is NULL when the open for writing failed. *)
Definition fprintf_score (oomFile : bool) (pid value : Z) (next : outcome)
  : run :=
  if oomFile
  then {| ret := next; written := [(fileName pid, value)]; checked := [] |}
  else stop Undefined.

(** The [while (token)] loop: [args] are the values that [token] takes
    after each [strtok(NULL, " ")].  Gives the result of the last call of
    [check_wl_config] and the arguments that were passed. *)
Fixpoint token_loop (w : world) (n : nat) (args : list (option cstring))
  : outcome * list (option cstring) :=
  match args with
  | [] => (Returns 0, [])
  | token :: rest =>
      match Whitelist.check_wl_config (fs w) (stack w n) token with
      | Undefined => (Undefined, [token])
      | Returns v =>
          if v =? 1 then (Returns 1, [token])
          else let '(r, l) := token_loop w (S n) rest in (r, token :: l)
      end
  end.

(** The [while (getdelim(...) != -1)] loop over the records of the
    cmdline file, and the code after it. *)
Fixpoint getdelim_loop (w : world) (oomFile : bool) (n : nat)
         (records : list cstring) : run :=
  let pid := org_fork w in
  match records with
  | [] => fprintf_score oomFile pid oomValue (Returns pid)
  | cmdArg :: more =>
      if first_is slash cmdArg then
        match strrchr cmdArg slash with
        | None => stop Undefined
        | Some afterSlash =>
            if first_is slash afterSlash then
              (* memmove(afterSlash, afterSlash + 1, strlen(afterSlash)) *)
              match strtok_all space (tl afterSlash) with
              | [] => getdelim_loop w oomFile n more
              | _ :: later =>
                  let '(r, passed) :=
                    token_loop w n (map Some later ++ [None]) in
                  after_checks passed
                    match r with
                    | Undefined => stop Undefined
                    | Returns v =>
                        if v =? 1
                        then (* ... free(cmdArg); free(token); *)
                          fprintf_score oomFile pid whitelistValue Undefined
                        else getdelim_loop w oomFile
                               (n + List.length passed) more
                    end
              end
            else getdelim_loop w oomFile n more
        end
      else
        after_checks [Some cmdArg]
          match Whitelist.check_wl_config (fs w) (stack w n) (Some cmdArg)
          with
          | Undefined => stop Undefined
          | Returns v =>
              if v =? 1
              then fprintf_score oomFile pid whitelistValue (Returns pid)
              else getdelim_loop w oomFile (S n) more
          end
  end.

Definition fork (w : world) : run :=
  let pid := org_fork w in
  if negb (pid =? 0) then
    match fs w (fileName pid) with
    | Some oom =>
        let oomFile := f_write oom in
        match fs w (cmdFileName pid) with
        | Some cmd =>
            match f_read cmd with
            | None => stop Undefined
            | Some content => getdelim_loop w oomFile 0 (getdelim_all content)
            end
        | None => stop (Returns pid)
        end
    | None => stop (Returns pid)
    end
  else stop (Returns pid).

(** A run that ends by returning [pid] or not at all, and prints at most
    one score, 1000 or -1000, to the path held in [fileName]. *)
Definition tame (pid : Z) (r : run) : Prop :=
  (ret r = Undefined \/ ret r = Returns pid)
  /\ (forall path v, In (path, v) (written r) ->
        path = fileName pid /\ (v = oomValue \/ v = whitelistValue))
  /\ (List.length (written r) <= 1)%nat.

End Shim.

(** ** Concrete inputs *)

Module Inputs.

Import C.

Fixpoint lookup (files : list (cstring * file)) (path : cstring)
  : option file :=
  match files with
  | [] => None
  | (p, f) :: rest => if streq p path then Some f else lookup rest path
  end.

Definition regular (content : list ascii) : file :=
  {| f_read := Some content; f_write := true |}.

(** A stack that was zeroed before the call. *)
Definition zeroed : uninit := {| last_init := []; below_last := nul |}.

Definition whitelist (content : list ascii) : filesystem :=
  lookup [(Whitelist.fileName, regular content)].

(** Process [pid] alive, with the given cmdline bytes and whitelist. *)
Definition live (pid : Z) (cmdline wl : list ascii) : Shim.world :=
  {| Shim.org_fork := pid;
     Shim.fs := lookup [(Shim.oom_path pid, regular []);
                        (Shim.cmdline_path pid, regular cmdline);
                        (Whitelist.fileName, regular wl)];
     Shim.stack := fun _ => zeroed |}.

Definition a127 : list ascii := repeat "a"%char 127.

(** [# comment], an empty line, [!sshd], [bash]. *)
Definition scenario : list ascii :=
  lit "# comment" ++ [nl] ++ [nl] ++ lit "!sshd" ++ [nl] ++ lit "bash" ++ [nl].

(** [bash], then a line of 127 letters [a] followed by [zsh]: the line
    does not fit one read. *)
Definition tail_after_entry : list ascii :=
  lit "bash" ++ [nl] ++ a127 ++ lit "zsh" ++ [nl].

(** [bash], then a comment line of 131 bytes, [#], 126 letters [x] and
    [sshd]: the line does not fit one read. *)
Definition comment_tail : list ascii :=
  lit "bash" ++ [nl] ++ hash :: repeat "x"%char 126 ++ lit "sshd" ++ [nl].

(** A line of exactly 127 letters [a], then [bash]. *)
Definition entry_after_full_line : list ascii :=
  a127 ++ [nl] ++ lit "bash" ++ [nl].

(** [/usr/sbin/sshd] forked while [!sshd] is on the list. *)
Definition sshd_world : Shim.world :=
  live 4242 (lit "/usr/sbin/sshd" ++ [nul]) (lit "!sshd" ++ [nl]).

(** [/bin/sh -c id] forked while the list holds a comment only. *)
Definition sh_world : Shim.world :=
  live 4242 (lit "/bin/sh" ++ [nul] ++ lit "-c" ++ [nul] ++ lit "id" ++ [nul])
       (lit "# none" ++ [nl]).

(** [/bin/ls] forked while [bash] is on the list. *)
Definition ls_world : Shim.world :=
  live 4242 (lit "/bin/ls" ++ [nul]) (lit "bash" ++ [nl]).

(** A process whose cmdline file is there and empty, as for a child that
    has exited and was not yet reaped. *)
Definition zombie_world : Shim.world :=
  live 4242 [] (lit "bash" ++ [nl]).

(** The child is gone before the first probe. *)
Definition gone_world : Shim.world :=
  {| Shim.org_fork := 4242;
     Shim.fs := whitelist (lit "bash" ++ [nl]);
     Shim.stack := fun _ => zeroed |}.

(** The child is gone between the two probes. *)
Definition half_gone_world : Shim.world :=
  {| Shim.org_fork := 4242;
     Shim.fs := lookup [(Shim.oom_path 4242, regular []);
                        (Whitelist.fileName, regular (lit "bash" ++ [nl]))];
     Shim.stack := fun _ => zeroed |}.

(** A live process with a six-digit identifier. *)
Definition six_digit_world : Shim.world :=
  live 123456 (lit "sshd" ++ [nul]) (lit "!sshd" ++ [nl]).

(** The same process with five digits. *)
Definition five_digit_world : Shim.world :=
  live 12345 (lit "sshd" ++ [nul]) (lit "!sshd" ++ [nl]).

(** The child side of the call. *)
Definition child_world : Shim.world :=
  live 0 (lit "sshd" ++ [nul]) (lit "!sshd" ++ [nl]).


End Inputs.

(** ** Notions used to state further properties *)

Module More.

Import C Whitelist.

(** What a line of the list says about a candidate [c]: the line is
    neither empty nor a comment, and it is [c] behind a bang, or it has
    no bang in front and [c] occurs in it. *)
Definition line_exempts (c l : cstring) : Prop :=
  l <> [] /\ first_is hash l = false
  /\ (l = bang :: c
      \/ (first_is bang l = false /\ exists pre post, l = pre ++ c ++ post)).

(** A read that holds a whole line which is neither empty nor a comment. *)
Definition is_entry_read (buf : list ascii) : bool :=
  strstr (cstr buf) [nl] && is_entry_line (removelast (cstr buf)).

(** A read of at most 127 bytes in which a line feed can only be the
    last byte. *)
Definition fits_buffer (buf : list ascii) : Prop :=
  (List.length buf <= bufsize - 2)%nat /\ ~ In nl (removelast buf).

(** The entry such a read stands for. *)
Definition entry_of_read (buf : list ascii) : entry :=
  entry_of_line (removelast (cstr buf)).

(** The number a string of decimal digits stands for. *)
Definition digit_value (c : ascii) : Z := Z.of_nat (nat_of_ascii c) - 48.

Definition number (s : cstring) : Z :=
  fold_left (fun acc c => 10 * acc + digit_value c) s 0.

(** The number a ["%d"] text stands for. *)
Definition atoi (s : cstring) : Z :=
  match s with
  | c :: rest => if Ascii.eqb c "-"%char then - number rest else number s
  | [] => 0
  end.

End More.

(** * Properties *)

Module WhitelistFacts.

Import C Whitelist.

Section Loop.

Variable u : uninit.

Lemma first_is_cons (c : ascii) (s : cstring) :
  s <> [] -> first_is c s = true -> s = c :: tl s.
Proof.
  destruct s as [|x s']; [congruence|].
  intros _ H. simpl in H. apply Ascii.eqb_eq in H. now subst.
Qed.

Lemma entry_line_of_line (l : cstring) :
  l <> [] -> entry_line (entry_of_line l) = l.
Proof.
  intros Hl. unfold entry_of_line.
  destruct (first_is bang l) eqn:E; cbn; [|reflexivity].
  symmetry. now apply first_is_cons.
Qed.

(** A read that reaches the comparison carried its line feed, and the
    line it held was neither empty nor a comment. *)
Lemma read_line_compare (st st' : wl_state) (buf : list ascii) (e : entry) :
  read_line u st buf = Compare e st' ->
  strstr (cstr buf) [nl] = true
  /\ e = entry_of_line (removelast (cstr buf))
  /\ removelast (cstr buf) <> []
  /\ first_is hash (removelast (cstr buf)) = false.
Proof.
  unfold read_line.
  destruct (strstr (cstr buf) [nl]); cbn [negb]; [|discriminate].
  destruct (strlen (removelast (cstr buf)) =? 0) eqn:Elen; [discriminate|].
  destruct (first_is hash (removelast (cstr buf))) eqn:Ehash; [discriminate|].
  destruct (negb _ && _); [discriminate|].
  intros H. injection H as <- _.
  repeat split.
  intros Hnil. rewrite Hnil in Elen. discriminate.
Qed.

(** The loop and the entries it compares. *)
Lemma wl_loop_entries (p : cstring) (reads : list (list ascii)) :
  forall st,
    wl_loop u (Some p) st reads =
    {| result := if existsb (entry_matches p) (wl_entries u st reads)
                 then Returns 1 else Returns 0;
       compared := through_first (entry_matches p) (wl_entries u st reads) |}.
Proof.
  induction reads as [|buf rest IH]; intros st; [reflexivity|].
  cbn [wl_loop wl_entries].
  destruct (read_line u st buf) as [st'|e st']; [apply IH|].
  cbn [existsb through_first].
  destruct (entry_matches p e); [reflexivity|].
  rewrite IH. reflexivity.
Qed.

Lemma wl_entries_origin (reads : list (list ascii)) :
  forall st e,
    In e (wl_entries u st reads) ->
    exists buf,
      In buf reads
      /\ strstr (cstr buf) [nl] = true
      /\ e = entry_of_line (removelast (cstr buf))
      /\ removelast (cstr buf) <> []
      /\ first_is hash (removelast (cstr buf)) = false.
Proof.
  induction reads as [|buf rest IH]; intros st e; [intros []|].
  cbn [wl_entries].
  destruct (read_line u st buf) as [st'|e' st'] eqn:E.
  - intros H. destruct (IH _ _ H) as (b & Hb & Hrest).
    exists b. split; [now right | exact Hrest].
  - intros [<- | H].
    + exists buf. split; [now left | exact (read_line_compare _ _ _ _ E)].
    + destruct (IH _ _ H) as (b & Hb & Hrest).
      exists b. split; [now right | exact Hrest].
Qed.

End Loop.

(** *** Reads *)

Lemma fgets_aux_split (k : nat) :
  forall stream l r, fgets_aux k stream = (l, r) -> stream = l ++ r.
Proof.
  induction k as [|k IH]; intros stream l r; cbn.
  - destruct stream; intros H; injection H as <- <-; reflexivity.
  - destruct stream as [|c rest]; [intros H; injection H as <- <-; reflexivity|].
    destruct (Ascii.eqb c nl).
    + intros H; injection H as <- <-. reflexivity.
    + destruct (fgets_aux k rest) as [l' r'] eqn:E.
      intros H; injection H as <- <-.
      cbn. f_equal. now apply IH.
Qed.

Lemma fgets_loop_subset (n fuel : nat) :
  forall stream buf x,
    In buf (fgets_loop fuel n stream) -> In x buf -> In x stream.
Proof.
  induction fuel as [|fuel IH]; intros stream buf x; [intros []|].
  cbn [fgets_loop]. unfold fgets.
  destruct stream as [|c rest]; [intros []|].
  destruct (fgets_aux (n - 1) (c :: rest)) as [l r] eqn:E.
  apply fgets_aux_split in E. rewrite E.
  intros [<- | Hin] Hx; apply in_or_app; [now left | right].
  eapply IH; eassumption.
Qed.

Lemma fgets_loop_all (n : nat) :
  (2 <= n)%nat ->
  forall fuel stream,
    (List.length stream <= fuel)%nat ->
    List.concat (fgets_loop fuel n stream) = stream.
Proof.
  intros Hn. induction fuel as [|fuel IH]; intros stream Hfuel.
  - destruct stream; [reflexivity | cbn in Hfuel; lia].
  - cbn [fgets_loop]. unfold fgets.
    destruct stream as [|c rest]; [reflexivity|].
    destruct (fgets_aux (n - 1) (c :: rest)) as [l r] eqn:E.
    assert (Hsplit := fgets_aux_split _ _ _ _ E).
    assert (Hl : l <> []).
    { destruct (n - 1)%nat as [|k] eqn:En; [lia|].
      cbn [fgets_aux] in E. destruct (Ascii.eqb c nl).
      - injection E as <- _. discriminate.
      - destruct (fgets_aux k rest). injection E as <- _. discriminate. }
    cbn [List.concat]. rewrite IH; [now symmetry|].
    assert (Hlen := f_equal (@List.length _) Hsplit).
    rewrite length_app in Hlen. cbn [List.length] in Hfuel, Hlen.
    destruct l; [congruence | cbn in Hlen; lia].
Qed.

(** The loop reads the whole file: one more read than [fgets_all] lists
    would find the end of the file. *)
Lemma fgets_all_reads_everything (content : list ascii) :
  List.concat (fgets_all (bufsize - 1) content) = content.
Proof. apply fgets_loop_all; [cbn; lia | lia]. Qed.

Lemma cstr_subset (buf : list ascii) (x : ascii) :
  In x (cstr buf) -> In x buf.
Proof.
  induction buf as [|c rest IH]; cbn; [intros []|].
  destruct (Ascii.eqb c nul); [intros []|].
  intros [<- | H]; [now left | right; now apply IH].
Qed.

Lemma strstr_byte (s : cstring) (x : ascii) :
  strstr s [x] = true -> In x s.
Proof.
  induction s as [|c rest IH]; cbn; [discriminate|].
  destruct (Ascii.eqb x c) eqn:E; cbn.
  - apply Ascii.eqb_eq in E. intros _. now left.
  - intros H. right. now apply IH.
Qed.

Lemma wl_loop_unterminated (u : uninit) (proc_name : option cstring)
      (reads : list (list ascii)) :
  (forall buf, In buf reads -> ~ In nl buf) ->
  forall st, result (wl_loop u proc_name st reads) = Returns 0.
Proof.
  induction reads as [|buf rest IH]; intros Hall st; [reflexivity|].
  cbn [wl_loop]. unfold read_line.
  destruct (strstr (cstr buf) [nl]) eqn:E.
  - exfalso. apply (Hall buf); [now left|].
    apply cstr_subset. now apply strstr_byte.
  - cbn [negb]. apply IH. intros b Hb. apply Hall. now right.
Qed.

(** *** Lists whose lines all fit one read *)

Lemma fgets_aux_line (l : cstring) :
  forall k rest,
    ~ In nl l -> (List.length l < k)%nat ->
    fgets_aux k (l ++ nl :: rest) = (l ++ [nl], rest).
Proof.
  induction l as [|c l IH]; intros k rest Hnl Hk.
  - destruct k; [cbn in Hk; lia|]. reflexivity.
  - destruct k; [cbn in Hk; lia|]. cbn [app fgets_aux].
    destruct (Ascii.eqb c nl) eqn:E.
    + apply Ascii.eqb_eq in E. exfalso. apply Hnl. now left.
    + rewrite IH; [reflexivity | | cbn in Hk; lia].
      intros H. apply Hnl. now right.
Qed.

Lemma fgets_loop_lines (lines : list cstring) :
  forall fuel,
    (List.length lines <= fuel)%nat ->
    Forall well_formed_line lines ->
    fgets_loop fuel (bufsize - 1) (text_of lines)
    = map (fun l => l ++ [nl]) lines.
Proof.
  induction lines as [|l lines IH]; intros fuel Hfuel Hwf.
  - destruct fuel; reflexivity.
  - destruct fuel; [cbn in Hfuel; lia|].
    inversion Hwf as [|? ? (Hnl & _ & Hlen) Hrest]; subst.
    unfold text_of. cbn [map List.concat]. fold (text_of lines).
    rewrite <- app_assoc. cbn [app fgets_loop].
    assert (Hget : fgets (bufsize - 1) (l ++ nl :: text_of lines)
                   = Some (l ++ [nl], text_of lines)).
    { unfold fgets.
      rewrite <- (fgets_aux_line l (bufsize - 1 - 1) (text_of lines) Hnl)
        by (cbn in *; lia).
      destruct l; reflexivity. }
    rewrite Hget. f_equal. apply IH; [cbn in Hfuel; lia | assumption].
Qed.

Lemma text_of_length (lines : list cstring) :
  (List.length lines <= List.length (text_of lines))%nat.
Proof.
  induction lines as [|l lines IH]; [cbn; lia|].
  unfold text_of in *. cbn [map List.concat].
  rewrite !length_app. cbn. lia.
Qed.

Lemma fgets_all_lines (lines : list cstring) :
  Forall well_formed_line lines ->
  fgets_all (bufsize - 1) (text_of lines) = map (fun l => l ++ [nl]) lines.
Proof.
  intros H. apply fgets_loop_lines; [apply text_of_length | exact H].
Qed.

Lemma cstr_line (l : cstring) :
  ~ In nul l -> cstr (l ++ [nl]) = l ++ [nl].
Proof.
  induction l as [|c l IH]; intros H; [reflexivity|].
  cbn. destruct (Ascii.eqb c nul) eqn:E.
  - apply Ascii.eqb_eq in E. exfalso. apply H. now left.
  - f_equal. apply IH. intros Hin. apply H. now right.
Qed.

Lemma strstr_line (l : cstring) : strstr (l ++ [nl]) [nl] = true.
Proof.
  induction l as [|c l IH]; [reflexivity|].
  cbn [app strstr]. rewrite IH. apply orb_true_r.
Qed.

Lemma last_line (l : cstring) (d : ascii) : List.last (l ++ [nl]) d = nl.
Proof. apply last_last. Qed.

Section Clean.

Variable u : uninit.

Lemma read_line_well_formed (st : wl_state) (l : cstring) :
  well_formed_line l -> settled u st ->
  exists st',
    settled u st'
    /\ read_line u st (l ++ [nl])
       = if is_entry_line l then Compare (entry_of_line l) st' else Skip st'.
Proof.
  intros (Hnl & Hnul & Hlen) Hst.
  unfold read_line. rewrite (cstr_line l Hnul), strstr_line, removelast_last.
  cbn [negb]. unfold is_entry_line.
  destruct l as [|c l']; [exists st; now split|].
  replace (strlen (c :: l') =? 0) with false by reflexivity.
  cbn [is_empty negb andb].
  destruct (first_is hash (c :: l')); [exists st; now split|].
  cbn [negb].
  assert (Htest : negb (Ascii.eqb (last_byte u (last st)) nl)
                  && (catch_bad_things st >? 0) = false).
  { destruct Hst as [-> | ->]; [apply andb_false_r|].
    now rewrite Ascii.eqb_refl. }
  rewrite Htest. eexists. split; [|reflexivity].
  right. cbn [last]. unfold last_byte, snprintf_s.
  assert (Hfit : firstn (bufsize - 1 - 1) ((c :: l') ++ [nl])
                 = (c :: l') ++ [nl])
    by (apply firstn_all2; rewrite length_app; cbn in *; lia).
  rewrite !Hfit. apply last_line.
Qed.

Lemma wl_entries_lines (lines : list cstring) :
  Forall well_formed_line lines ->
  forall st, settled u st ->
    wl_entries u st (map (fun l => l ++ [nl]) lines)
    = map entry_of_line (filter is_entry_line lines).
Proof.
  induction 1 as [|l lines Hl _ IH]; intros st Hst; [reflexivity|].
  cbn [map wl_entries filter].
  destruct (read_line_well_formed st l Hl Hst) as (st' & Hst' & ->).
  destruct (is_entry_line l); cbn [map]; now rewrite IH.
Qed.

End Clean.

(** On a list whose lines all fit one read, the entries the loop compares
    are the lines that are neither empty nor comments, in order. *)
Theorem clean_list_entries (u : uninit) (lines : list cstring) :
  Forall well_formed_line lines ->
  entries_of u (text_of lines) = map entry_of_line (filter is_entry_line lines).
Proof.
  intros H. unfold entries_of. rewrite fgets_all_lines by exact H.
  apply wl_entries_lines; [exact H | now left].
Qed.

(** On a list whose lines all fit one read, a line that is neither empty
    nor a comment nor bang-prefixed exempts every candidate it contains,
    whatever the stale bytes in [last]. *)
Theorem substring_entry_exempts_in_clean_list
        (fs : filesystem) (u : uninit) (f : file) (lines : list cstring)
        (P c : cstring) :
  fs fileName = Some f -> f_read f = Some (text_of lines) ->
  Forall well_formed_line lines ->
  In P lines -> is_entry_line P = true -> first_is bang P = false ->
  strstr P c = true ->
  check_wl_config fs u (Some c) = Returns 1.
Proof.
  intros Hf Hr Hwf HP Hentry Hbang Hsub.
  unfold check_wl_config. rewrite Hf, Hr.
  unfold scan_file. rewrite wl_loop_entries. cbn [result].
  fold (entries_of u (text_of lines)).
  rewrite clean_list_entries by exact Hwf.
  replace (existsb _ _) with true; [reflexivity|].
  symmetry. apply existsb_exists.
  exists (entry_of_line P). split.
  - apply in_map, filter_In. now split.
  - unfold entry_of_line. rewrite Hbang. exact Hsub.
Qed.

(** *** The claims about the matcher *)

Import Inputs.

Lemma check_wl_config_opened (fs : filesystem) (u : uninit) (f : file)
      (content : list ascii) (proc_name : option cstring) :
  fs fileName = Some f -> f_read f = Some content ->
  check_wl_config fs u proc_name = result (scan_file u proc_name content).
Proof. intros Hf Hr. unfold check_wl_config. now rewrite Hf, Hr. Qed.

Ltac run_loop := repeat (cbn; rewrite ?andb_false_r).

Lemma tail_after_entry_reads :
  fgets_all (bufsize - 1) tail_after_entry =
  [lit "bash" ++ [nl]; a127; lit "zsh" ++ [nl]].
Proof. vm_compute. reflexivity. Qed.

(** C3: the list [bash], then a line of 127 letters [a] followed by
    [zsh].  The second read is cut before the line feed and the third
    read is the rest of that line, [zsh]; the candidate [zsh] is exempt
    through it, whatever the stale bytes in [last]. *)
Theorem remainder_of_truncated_line_is_matched (u : uninit) :
  fgets_all (bufsize - 1) tail_after_entry
  = [lit "bash" ++ [nl]; a127; lit "zsh" ++ [nl]]
  /\ check_wl_config (whitelist tail_after_entry) u (Some (lit "zsh"))
     = Returns 1.
Proof.
  split; [exact tail_after_entry_reads|].
  rewrite (check_wl_config_opened _ u (regular tail_after_entry)
             tail_after_entry) by reflexivity.
  unfold scan_file. rewrite tail_after_entry_reads.
  run_loop. reflexivity.
Qed.

Lemma scenario_reads :
  fgets_all (bufsize - 1) scenario =
  [lit "# comment" ++ [nl]; [nl]; lit "!sshd" ++ [nl]; lit "bash" ++ [nl]].
Proof. vm_compute. reflexivity. Qed.

(** C4: with the list [# comment], empty line, [!sshd], [bash], the
    candidate [sshd] is exempt (1) through the exact entry, [sshdx] is
    not (0), [ba] is exempt (1) through the substring entry [bash] and
    [zsh] is not (0), whatever the stale bytes in [last]. *)
Theorem scenario_classification (fs : filesystem) (u : uninit) (f : file) :
  fs fileName = Some f -> f_read f = Some scenario ->
  let sshd := {| e_mode := Exact; e_pattern := lit "sshd" |} in
  let bash := {| e_mode := Substring; e_pattern := lit "bash" |} in
  entries_of u scenario = [sshd; bash]
  /\ check_wl_config fs u (Some (lit "sshd")) = Returns 1
  /\ compared (scan_file u (Some (lit "sshd")) scenario) = [sshd]
  /\ check_wl_config fs u (Some (lit "sshdx")) = Returns 0
  /\ check_wl_config fs u (Some (lit "ba")) = Returns 1
  /\ compared (scan_file u (Some (lit "ba")) scenario) = [sshd; bash]
  /\ check_wl_config fs u (Some (lit "zsh")) = Returns 0.
Proof.
  intros Hf Hr.
  rewrite !(check_wl_config_opened fs u f scenario _ Hf Hr).
  unfold entries_of, scan_file. rewrite scenario_reads.
  repeat split; run_loop; reflexivity.
Qed.

Lemma scenario_classification_witness :
  check_wl_config (whitelist scenario) zeroed (Some (lit "sshd")) = Returns 1
  /\ check_wl_config (whitelist scenario) zeroed (Some (lit "sshdx"))
     = Returns 0
  /\ check_wl_config (whitelist scenario) zeroed (Some (lit "ba")) = Returns 1
  /\ check_wl_config (whitelist scenario) zeroed (Some (lit "zsh"))
     = Returns 0.
Proof.
  destruct (scenario_classification
              (whitelist scenario) zeroed (regular scenario)
              eq_refl eq_refl) as (_ & H1 & _ & H2 & H3 & _ & H4).
  repeat split; assumption.
Defined.

(** C5: when [/etc/oom_whitelist] is not there, or is there and cannot be
    opened, [check_wl_config] returns 0 (Standard) whatever it is asked
    about, the NULL pointer included. *)
Theorem unavailable_whitelist_is_standard
        (fs : filesystem) (u : uninit) (proc_name : option cstring) :
  fs fileName = None
  \/ (exists f, fs fileName = Some f /\ f_read f = None) ->
  check_wl_config fs u proc_name = Returns 0.
Proof.
  intros [H | (f & Hf & Hr)]; unfold check_wl_config.
  - now rewrite H.
  - now rewrite Hf, Hr.
Qed.

Lemma unavailable_whitelist_is_standard_witness :
  check_wl_config (fun _ => None) zeroed (Some (lit "sshd")) = Returns 0
  /\ check_wl_config
       (lookup [(fileName, {| f_read := None; f_write := false |})])
       zeroed (Some (lit "sshd")) = Returns 0.
Proof.
  split.
  - apply unavailable_whitelist_is_standard. left. reflexivity.
  - apply unavailable_whitelist_is_standard. right.
    eexists. split; reflexivity.
Defined.

Lemma entry_after_full_line_reads :
  fgets_all (bufsize - 1) entry_after_full_line =
  [a127; [nl]; lit "bash" ++ [nl]].
Proof. vm_compute. reflexivity. Qed.

(** C6: the list is a line of exactly 127 letters [a], then the line
    [bash].  When the stale bytes in [last] do not end in a line feed,
    the entry [bash] is thrown away and the candidate [ba], which it
    contains, is not exempt. *)
Theorem entry_after_full_line_is_dropped (u : uninit) :
  Ascii.eqb (last_byte u (last_init u)) nl = false ->
  strstr (lit "bash") (lit "ba") = true
  /\ check_wl_config (whitelist entry_after_full_line) u (Some (lit "ba"))
     = Returns 0.
Proof.
  intros Hstale. split; [reflexivity|].
  rewrite (check_wl_config_opened _ u (regular entry_after_full_line)
             entry_after_full_line) by reflexivity.
  unfold scan_file. rewrite entry_after_full_line_reads.
  cbn. unfold last_byte in Hstale. rewrite Hstale. reflexivity.
Qed.

Lemma entry_after_full_line_is_dropped_witness :
  Ascii.eqb (last_byte zeroed (last_init zeroed)) nl = false
  /\ check_wl_config (whitelist entry_after_full_line) zeroed
       (Some (lit "ba")) = Returns 0.
Proof.
  split; [reflexivity|].
  apply (entry_after_full_line_is_dropped zeroed). reflexivity.
Defined.

(** C7: a read that comes back without its line feed never makes
    [check_wl_config] return 1.  Whatever the locals and the candidate,
    the loop goes on to the next read with only the counter moved; a list
    that holds no line feed at all gives 0 for every candidate; and every
    return of 1 comes from a read that did carry its line feed. *)
Theorem unterminated_read_never_exempts :
  (forall u proc_name st buf rest,
      strstr (cstr buf) [nl] = false ->
      wl_loop u proc_name st (buf :: rest)
      = wl_loop u proc_name
          {| catch_bad_things := int_incr (catch_bad_things st);
             last := last st |} rest)
  /\ (forall (fs : filesystem) u f content proc_name,
        fs fileName = Some f -> f_read f = Some content ->
        ~ In nl content ->
        check_wl_config fs u proc_name = Returns 0)
  /\ (forall (fs : filesystem) u f content p,
        fs fileName = Some f -> f_read f = Some content ->
        check_wl_config fs u (Some p) = Returns 1 ->
        exists buf,
          In buf (fgets_all (bufsize - 1) content)
          /\ strstr (cstr buf) [nl] = true
          /\ entry_matches p (entry_of_line (removelast (cstr buf))) = true).
Proof.
  split; [|split].
  - intros u proc_name st buf rest H.
    cbn [wl_loop]. unfold read_line. now rewrite H.
  - intros fs u f content proc_name Hf Hr Hnl.
    rewrite (check_wl_config_opened fs u f content _ Hf Hr).
    apply wl_loop_unterminated.
    intros buf Hbuf Hin. apply Hnl.
    eapply fgets_loop_subset; eassumption.
  - intros fs u f content p Hf Hr.
    rewrite (check_wl_config_opened fs u f content _ Hf Hr).
    unfold scan_file. rewrite wl_loop_entries. cbn [result].
    destruct (existsb _ _) eqn:E; [|discriminate].
    intros _. apply existsb_exists in E. destruct E as (e & He & Hm).
    apply wl_entries_origin in He.
    destruct He as (buf & Hbuf & Hnl & -> & _).
    exists buf. repeat split; assumption.
Qed.

Lemma unterminated_read_never_exempts_witness :
  wl_loop zeroed (Some (lit "sshd")) (wl_init zeroed) [lit "sshd"]
  = {| result := Returns 0; compared := [] |}
  /\ check_wl_config (whitelist (lit "sshd")) zeroed (Some (lit "sshd"))
     = Returns 0
  /\ exists buf,
       In buf (fgets_all (bufsize - 1) scenario)
       /\ strstr (cstr buf) [nl] = true
       /\ entry_matches (lit "ba") (entry_of_line (removelast (cstr buf)))
          = true.
Proof.
  destruct unterminated_read_never_exempts as (H1 & H2 & H3).
  split; [|split].
  - rewrite H1; reflexivity.
  - apply (H2 (whitelist (lit "sshd")) zeroed (regular (lit "sshd"))
              (lit "sshd") (Some (lit "sshd")));
      [reflexivity | reflexivity |].
    vm_compute. intuition discriminate.
  - apply (H3 (whitelist scenario) zeroed (regular scenario) scenario);
      reflexivity.
Defined.

Lemma comment_tail_reads :
  fgets_all (bufsize - 1) comment_tail =
  [lit "bash" ++ [nl]; hash :: repeat "x"%char 126; lit "sshd" ++ [nl]].
Proof. vm_compute. reflexivity. Qed.

(** C8: the list is the line [bash], then one line of 131 bytes that
    begins with [#] and ends in [sshd].  No entry of the list matches the
    candidate [sshd]: [bash] does not contain it and the long line is a
    comment.  Yet the read that holds the tail of the comment line is
    compared, after [bash], and [check_wl_config] returns 1, whatever the
    stale bytes in [last]; the candidate [zsh] gets 0 on the same list. *)
Theorem tail_of_comment_line_is_matched (u : uninit) :
  let bash := {| e_mode := Substring; e_pattern := lit "bash" |} in
  let tail := {| e_mode := Substring; e_pattern := lit "sshd" |} in
  fgets_all (bufsize - 1) comment_tail
  = [lit "bash" ++ [nl]; hash :: repeat "x"%char 126; lit "sshd" ++ [nl]]
  /\ strstr (lit "bash") (lit "sshd") = false
  /\ check_wl_config (whitelist comment_tail) u (Some (lit "sshd"))
     = Returns 1
  /\ compared (scan_file u (Some (lit "sshd")) comment_tail) = [bash; tail]
  /\ check_wl_config (whitelist comment_tail) u (Some (lit "zsh"))
     = Returns 0.
Proof.
  split; [exact comment_tail_reads|]. split; [reflexivity|].
  rewrite !(check_wl_config_opened _ u (regular comment_tail) comment_tail)
    by reflexivity.
  unfold scan_file. rewrite comment_tail_reads.
  repeat split; run_loop; reflexivity.
Qed.

End WhitelistFacts.

Module ShimFacts.

Import C Shim Inputs.

(** *** Decimal digits *)

Lemma digits_keeps (fuel : nat) :
  forall n acc, (List.length acc <= List.length (digits fuel n acc))%nat.
Proof.
  induction fuel as [|fuel IH]; intros n acc; cbn [digits]; [lia|].
  destruct (n <? 10); [cbn; lia|].
  etransitivity; [|apply IH]. cbn. lia.
Qed.

Lemma digits_at_least (k : nat) :
  forall fuel n acc,
    (k < fuel)%nat -> 10 ^ Z.of_nat k <= n ->
    (k + 1 + List.length acc <= List.length (digits fuel n acc))%nat.
Proof.
  induction k as [|k IH]; intros fuel n acc Hfuel Hn;
    (destruct fuel as [|fuel]; [lia|]); cbn [digits].
  - destruct (n <? 10); [cbn; lia|].
    etransitivity; [|apply digits_keeps]. cbn. lia.
  - assert (H10 : 10 * 10 ^ Z.of_nat k <= n)
      by (rewrite Nat2Z.inj_succ, Z.pow_succ_r in Hn; lia).
    assert (0 < 10 ^ Z.of_nat k) by (apply Z.pow_pos_nonneg; lia).
    replace (n <? 10) with false by (symmetry; apply Z.ltb_ge; lia).
    etransitivity; [|apply IH; [lia|]].
    + cbn. lia.
    + apply Z.div_le_lower_bound; lia.
Qed.

Lemma digits_at_most (k : nat) :
  forall fuel n acc,
    0 <= n < 10 ^ Z.of_nat (S k) ->
    (List.length (digits fuel n acc) <= k + 1 + List.length acc)%nat.
Proof.
  induction k as [|k IH]; intros fuel n acc Hn;
    (destruct fuel as [|fuel]; [cbn; lia|]); cbn [digits].
  - replace (n <? 10) with true by (symmetry; apply Z.ltb_lt; cbn in Hn; lia).
    cbn. lia.
  - destruct (n <? 10) eqn:E; [cbn; lia|].
    apply Z.ltb_ge in E.
    etransitivity; [apply IH|cbn; lia].
    rewrite (Nat2Z.inj_succ (S k)), Z.pow_succ_r in Hn by lia.
    split; [apply Z.div_pos; lia|].
    apply Z.div_lt_upper_bound; lia.
Qed.

Lemma dec_short (pid : Z) :
  0 < pid <= 99999 -> (List.length (dec pid) <= 5)%nat.
Proof.
  intros H. unfold dec.
  replace (pid <? 0) with false by (symmetry; apply Z.ltb_ge; lia).
  etransitivity; [apply (digits_at_most 4)|cbn; lia].
  cbn. lia.
Qed.

Lemma dec_long (pid : Z) :
  99999 < pid -> (6 <= List.length (dec pid))%nat.
Proof.
  intros H. unfold dec.
  replace (pid <? 0) with false by (symmetry; apply Z.ltb_ge; lia).
  etransitivity; [|apply (digits_at_least 5); [lia|cbn; lia]].
  lia.
Qed.

Lemma oom_path_length (pid : Z) :
  List.length (oom_path pid) = (20 + List.length (dec pid))%nat.
Proof. unfold oom_path. rewrite !length_app. cbn. lia. Qed.

Lemma cmdline_path_length (pid : Z) :
  List.length (cmdline_path pid) = (14 + List.length (dec pid))%nat.
Proof. unfold cmdline_path. rewrite !length_app. cbn. lia. Qed.

(** *** The loops of fork *)

Lemma tame_stop (pid : Z) (o : outcome) :
  o = Undefined \/ o = Returns pid -> tame pid (stop o).
Proof.
  intros H. split; [exact H|]. split; [intros ? ? []|]. cbn. lia.
Qed.

Lemma tame_fprintf (oomFile : bool) (pid v : Z) (o : outcome) :
  o = Undefined \/ o = Returns pid ->
  v = oomValue \/ v = whitelistValue ->
  tame pid (fprintf_score oomFile pid v o).
Proof.
  intros Ho Hv. unfold fprintf_score.
  destruct oomFile; [|apply tame_stop; now left].
  split; [exact Ho|]. split; [|cbn; lia].
  intros path v' [H | []]. injection H as <- <-. now split.
Qed.

Lemma tame_after_checks (pid : Z) (l : list (option cstring)) (r : run) :
  tame pid r -> tame pid (after_checks l r).
Proof. intros H. exact H. Qed.

Lemma getdelim_loop_tame (w : world) (oomFile : bool)
      (records : list cstring) :
  forall n, tame (org_fork w) (getdelim_loop w oomFile n records).
Proof.
  induction records as [|cmdArg more IH]; intros n; cbn [getdelim_loop].
  - apply tame_fprintf; [now right | now left].
  - destruct (first_is slash cmdArg).
    + destruct (strrchr cmdArg slash) as [afterSlash|];
        [|apply tame_stop; now left].
      destruct (first_is slash afterSlash); [|apply IH].
      destruct (strtok_all space (tl afterSlash)) as [|t later]; [apply IH|].
      destruct (token_loop w n (map Some later ++ [None])) as [r passed].
      apply tame_after_checks.
      destruct r as [v|]; [|apply tame_stop; now left].
      destruct (v =? 1); [|apply IH].
      apply tame_fprintf; [now left | now right].
    + apply tame_after_checks.
      destruct (Whitelist.check_wl_config _ _ _) as [v|];
        [|apply tame_stop; now left].
      destruct (v =? 1); [|apply IH].
      apply tame_fprintf; [now right | now right].
Qed.

Lemma fork_tame (w : world) : tame (org_fork w) (fork w).
Proof.
  unfold fork.
  destruct (negb (org_fork w =? 0)); [|apply tame_stop; now right].
  destruct (fs w (fileName (org_fork w))) as [oom|];
    [|apply tame_stop; now right].
  destruct (fs w (cmdFileName (org_fork w))) as [cmd|];
    [|apply tame_stop; now right].
  destruct (f_read cmd); [apply getdelim_loop_tame | apply tame_stop; now left].
Qed.

(** The child side: 0 is returned at once; nothing is probed, checked or
    printed. *)
Theorem fork_child_returns_at_once (w : world) :
  org_fork w = 0 -> fork w = stop (Returns 0).
Proof. intros H. unfold fork. rewrite H. reflexivity. Qed.

Lemma fork_child_returns_at_once_witness :
  fork child_world = stop (Returns 0).
Proof. apply fork_child_returns_at_once. reflexivity. Defined.

(** A run that is defined returns what the real fork returned. *)
Theorem fork_defined_returns_pid (w : world) (v : Z) :
  ret (fork w) = Returns v -> v = org_fork w.
Proof.
  intros H. destruct (fork_tame w) as ([Hu | Hr] & _); congruence.
Qed.

(** C1: [/usr/sbin/sshd] is forked while the list holds [!sshd].  The
    candidate [sshd] would be exempt, but the token loop moves to the
    next token before it checks: the only argument handed to
    [check_wl_config] is the NULL that ends the tokens, and the run is
    undefined.  With a list of comments only, [/bin/sh -c id] has the
    arguments NULL, [-c] and [id] checked, never [sh]. *)
Theorem basename_is_skipped :
  getdelim_all (lit "/usr/sbin/sshd" ++ [nul]) = [lit "/usr/sbin/sshd"]
  /\ Whitelist.check_wl_config (fs sshd_world) zeroed (Some (lit "sshd"))
     = Returns 1
  /\ fork sshd_world
     = {| ret := Undefined; written := []; checked := [None] |}
  /\ fork sh_world
     = {| ret := Returns 4242;
          written := [(lit "/proc/4242/oom_score_adj", oomValue)];
          checked := [None; Some (lit "-c"); Some (lit "id")] |}.
Proof. repeat split; vm_compute; reflexivity. Qed.

(** C2: a call in the parent.  When the score file is not there at the
    first probe, or it is there and the cmdline file is not, nothing is
    checked, no score is printed and [fork] returns the identifier.  When
    both are there, the score file opens and the cmdline file yields no
    record, the score 1000 is printed and [fork] returns the
    identifier. *)
Theorem vanished_process_gets_no_score (w : world) :
  let pid := org_fork w in
  pid <> 0 ->
  (fs w (fileName pid) = None -> fork w = stop (Returns pid))
  /\ (forall oom,
        fs w (fileName pid) = Some oom -> fs w (cmdFileName pid) = None ->
        fork w = stop (Returns pid))
  /\ (forall oom cmd content,
        fs w (fileName pid) = Some oom -> f_write oom = true ->
        fs w (cmdFileName pid) = Some cmd -> f_read cmd = Some content ->
        getdelim_all content = [] ->
        fork w = {| ret := Returns pid;
                    written := [(fileName pid, oomValue)];
                    checked := [] |}).
Proof.
  intros pid Hpid. unfold fork. fold pid.
  replace (pid =? 0) with false by (symmetry; now apply Z.eqb_neq).
  cbn [negb]. split; [|split].
  - intros ->. reflexivity.
  - intros oom -> ->. reflexivity.
  - intros oom cmd content -> Hw -> -> ->.
    cbn [getdelim_loop]. unfold fprintf_score. now rewrite Hw.
Qed.

Lemma vanished_process_gets_no_score_witness :
  fork gone_world = stop (Returns 4242)
  /\ fork half_gone_world = stop (Returns 4242)
  /\ fork zombie_world
     = {| ret := Returns 4242;
          written := [(fileName 4242, oomValue)];
          checked := [] |}.
Proof.
  assert (Hg : org_fork gone_world <> 0) by (cbn; discriminate).
  assert (Hh : org_fork half_gone_world <> 0) by (cbn; discriminate).
  assert (Hz : org_fork zombie_world <> 0) by (cbn; discriminate).
  split; [|split].
  - apply (vanished_process_gets_no_score gone_world Hg). reflexivity.
  - apply (proj1 (proj2 (vanished_process_gets_no_score half_gone_world Hh))
             (regular [])); reflexivity.
  - apply (proj2 (proj2 (vanished_process_gets_no_score zombie_world Hz))
             (regular []) (regular []) []); reflexivity.
Defined.

(** C2 as first stated fails: the cmdline file of process 4242 is there,
    opens and yields no record, and a score is printed all the same. *)
Lemma empty_cmdline_gets_a_score :
  fs zombie_world (cmdFileName 4242) = Some (regular [])
  /\ getdelim_all [] = []
  /\ written (fork zombie_world) = [(lit "/proc/4242/oom_score_adj", 1000)]
  /\ written (fork zombie_world) <> [].
Proof. repeat split; vm_compute; [reflexivity .. | discriminate]. Qed.

(** C9: [/bin/ls] is forked while the list holds [bash].  The real fork
    returned 4242; the run of the wrapper is undefined, because the token
    loop hands NULL to [check_wl_config], which hands it to [strstr]. *)
Theorem parent_run_is_undefined :
  org_fork ls_world = 4242
  /\ fork ls_world = {| ret := Undefined; written := []; checked := [None] |}
  /\ ret (fork ls_world) <> Returns 4242.
Proof. repeat split; vm_compute; [reflexivity .. | discriminate]. Qed.

(** C10: the two path buffers hold identifiers of up to five digits.  For
    a larger identifier both paths are cut by [snprintf] and differ from
    the paths of the process; every probe and every print goes to the
    path held in the buffer, so when nothing is found at the cut path
    nothing is printed; the buffer holds the path of the process exactly
    when the identifier is at most 99999. *)
Theorem path_buffers_hold_five_digits (w : world) :
  let pid := org_fork w in
  0 < pid < 2 ^ 31 ->
  (pid <= 99999 ->
   fileName pid = oom_path pid /\ cmdFileName pid = cmdline_path pid)
  /\ (99999 < pid ->
      fileName pid = firstn 25 (oom_path pid)
      /\ (25 < List.length (oom_path pid))%nat
      /\ cmdFileName pid = firstn 19 (cmdline_path pid)
      /\ (19 < List.length (cmdline_path pid))%nat
      /\ fileName pid <> oom_path pid
      /\ cmdFileName pid <> cmdline_path pid)
  /\ (fileName pid = oom_path pid <-> pid <= 99999)
  /\ (cmdFileName pid = cmdline_path pid <-> pid <= 99999)
  /\ (forall path v, In (path, v) (written (fork w)) -> path = fileName pid)
  /\ (fs w (fileName pid) = None -> fork w = stop (Returns pid)).
Proof.
  intros pid Hpid.
  assert (Hshort : pid <= 99999 ->
                   fileName pid = oom_path pid
                   /\ cmdFileName pid = cmdline_path pid).
  { intros Hle. assert (Hd := dec_short pid ltac:(lia)).
    unfold fileName, cmdFileName, snprintf_s.
    split; apply firstn_all2;
      rewrite ?oom_path_length, ?cmdline_path_length; cbn; lia. }
  assert (Hlong : 99999 < pid ->
                  fileName pid = firstn 25 (oom_path pid)
                  /\ (25 < List.length (oom_path pid))%nat
                  /\ cmdFileName pid = firstn 19 (cmdline_path pid)
                  /\ (19 < List.length (cmdline_path pid))%nat
                  /\ fileName pid <> oom_path pid
                  /\ cmdFileName pid <> cmdline_path pid).
  { intros Hgt. assert (Hd := dec_long pid Hgt).
    assert (Ho := oom_path_length pid). assert (Hc := cmdline_path_length pid).
    split; [reflexivity|]. split; [lia|].
    split; [reflexivity|]. split; [lia|].
    split; intros Heq; apply (f_equal (@List.length _)) in Heq;
      unfold fileName, cmdFileName, snprintf_s in Heq;
      rewrite length_firstn in Heq; lia. }
  split; [exact Hshort|]. split; [exact Hlong|]. split; [|split; [|split]].
  - split; [|intros Hle; now apply Hshort].
    intros Heq. destruct (Z_le_gt_dec pid 99999) as [Hle | Hgt]; [exact Hle|].
    exfalso. destruct (Hlong ltac:(lia)) as (_ & _ & _ & _ & Hne & _).
    now apply Hne.
  - split; [|intros Hle; now apply Hshort].
    intros Heq. destruct (Z_le_gt_dec pid 99999) as [Hle | Hgt]; [exact Hle|].
    exfalso. destruct (Hlong ltac:(lia)) as (_ & _ & _ & _ & _ & Hne).
    now apply Hne.
  - intros path v Hin.
    destruct (fork_tame w) as (_ & Hw & _). now apply (Hw path v).
  - intros Hnone. unfold fork. fold pid.
    replace (pid =? 0) with false by (symmetry; apply Z.eqb_neq; lia).
    cbn [negb]. now rewrite Hnone.
Qed.

Lemma path_buffers_hold_five_digits_witness :
  fileName 123456 = lit "/proc/123456/oom_score_ad"
  /\ cmdFileName 123456 = lit "/proc/123456/cmdlin"
  /\ fs six_digit_world (oom_path 123456) = Some (regular [])
  /\ fork six_digit_world = stop (Returns 123456)
  /\ fileName 12345 = oom_path 12345.
Proof.
  assert (H6 : 0 < org_fork six_digit_world < 2 ^ 31) by (cbn; lia).
  assert (H5 : 0 < org_fork five_digit_world < 2 ^ 31) by (cbn; lia).
  destruct (path_buffers_hold_five_digits six_digit_world H6)
    as (_ & Hlong & _ & _ & _ & Hprobe).
  destruct (path_buffers_hold_five_digits five_digit_world H5)
    as (Hshort & _).
  destruct (Hlong ltac:(cbn; lia)) as (Ho & _ & Hc & _).
  split; [etransitivity; [exact Ho | reflexivity]|].
  split; [etransitivity; [exact Hc | reflexivity]|].
  split; [reflexivity|].
  split; [apply Hprobe; reflexivity|].
  apply Hshort. cbn. lia.
Defined.

End ShimFacts.

(** * Further properties of the matcher *)

Module MatcherFacts.

Import C Whitelist More WhitelistFacts Inputs.

(** *** The string functions *)

Lemma streq_eq (a : cstring) : forall b, streq a b = true <-> a = b.
Proof.
  induction a as [|x a IH]; intros [|y b]; cbn; try (split; congruence).
  rewrite andb_true_iff, Ascii.eqb_eq, IH. split.
  - intros [-> ->]. reflexivity.
  - intros H. injection H as -> ->. now split.
Qed.

Lemma is_prefix_app (p : cstring) :
  forall s, is_prefix p s = true <-> exists post, s = p ++ post.
Proof.
  induction p as [|x p IH]; intros s; cbn.
  - split; [intros _; now exists s | reflexivity].
  - destruct s as [|y s]; [split; [discriminate | intros (post & H); discriminate]|].
    rewrite andb_true_iff, Ascii.eqb_eq, IH. split.
    + intros (-> & post & ->). now exists post.
    + intros (post & H). injection H as -> ->. split; [reflexivity | now exists post].
Qed.

Lemma strstr_occurs (h : cstring) :
  forall n, strstr h n = true <-> exists pre post, h = pre ++ n ++ post.
Proof.
  induction h as [|y h IH]; intros n.
  - cbn [strstr]. rewrite orb_false_r, is_prefix_app. split.
    + intros (post & H). exists [], post. exact H.
    + intros (pre & post & H). symmetry in H.
      apply app_eq_nil in H. destruct H as (-> & H).
      exists post. now symmetry.
  - cbn [strstr]. rewrite orb_true_iff, is_prefix_app, IH. split.
    + intros [(post & H) | (pre & post & H)].
      * exists [], post. exact H.
      * exists (y :: pre), post. cbn. now rewrite H.
    + intros (pre & post & H). destruct pre as [|z pre].
      * left. exists post. exact H.
      * right. injection H as -> ->. now exists pre, post.
Qed.

Lemma entry_matches_line (c l : cstring) :
  l <> [] -> first_is hash l = false ->
  entry_matches c (entry_of_line l) = true <-> line_exempts c l.
Proof.
  intros Hne Hhash. unfold line_exempts, entry_of_line, entry_matches.
  destruct (first_is bang l) eqn:Eb; cbn [e_mode e_pattern].
  - rewrite streq_eq. pose proof (first_is_cons bang l Hne Eb) as Hl. split.
    + intros H. repeat split; try assumption. left. now rewrite Hl, H.
    + intros (_ & _ & [H | (H & _)]); [|discriminate].
      rewrite H. reflexivity.
  - rewrite strstr_occurs. split.
    + intros H. repeat split; try assumption. now right.
    + intros (_ & _ & [H | (_ & H)]); [|exact H].
      rewrite H in Eb. cbn in Eb. discriminate.
Qed.

Lemma is_entry_line_true (l : cstring) :
  is_entry_line l = true <-> l <> [] /\ first_is hash l = false.
Proof.
  unfold is_entry_line. rewrite andb_true_iff, !negb_true_iff.
  destruct l; cbn; intuition congruence.
Qed.

Lemma clean_list_scan (u : uninit) (lines : list cstring) (c : cstring) :
  Forall well_formed_line lines ->
  result (scan_file u (Some c) (text_of lines))
  = if existsb (entry_matches c)
         (map entry_of_line (filter is_entry_line lines))
    then Returns 1 else Returns 0.
Proof.
  intros Hwf. unfold scan_file. rewrite wl_loop_entries. cbn [result].
  fold (entries_of u (text_of lines)).
  now rewrite clean_list_entries.
Qed.

Lemma clean_list_exists (lines : list cstring) (c : cstring) :
  existsb (entry_matches c) (map entry_of_line (filter is_entry_line lines))
  = true
  <-> exists l, In l lines /\ line_exempts c l.
Proof.
  rewrite existsb_exists. split.
  - intros (e & He & Hm). apply in_map_iff in He.
    destruct He as (l & <- & Hl). apply filter_In in Hl.
    destruct Hl as (Hin & Hentry). apply is_entry_line_true in Hentry.
    exists l. split; [exact Hin|].
    now apply entry_matches_line.
  - intros (l & Hin & Hex). pose proof Hex as (Hne & Hhash & _).
    exists (entry_of_line l). split.
    + apply in_map, filter_In. split; [exact Hin|].
      now apply is_entry_line_true.
    + now apply entry_matches_line.
Qed.

(** X1: on a list whose lines all fit one read, [check_wl_config] returns
    1 exactly when some line exempts the candidate (the candidate behind
    a bang, or the candidate inside a line without bang; empty lines and
    comments aside) and 0 otherwise, whatever the stale bytes in
    [last]. *)
Theorem clean_list_result
        (fs : filesystem) (u : uninit) (f : file) (lines : list cstring)
        (c : cstring) :
  fs fileName = Some f -> f_read f = Some (text_of lines) ->
  Forall well_formed_line lines ->
  (check_wl_config fs u (Some c) = Returns 1
   <-> exists l, In l lines /\ line_exempts c l)
  /\ (check_wl_config fs u (Some c) = Returns 0
      <-> ~ exists l, In l lines /\ line_exempts c l).
Proof.
  intros Hf Hr Hwf.
  rewrite (check_wl_config_opened fs u f _ _ Hf Hr), clean_list_scan by exact Hwf.
  rewrite <- clean_list_exists.
  destruct (existsb _ _); split; split; congruence.
Qed.

Lemma clean_list_result_witness :
  check_wl_config (whitelist scenario) zeroed (Some (lit "ba")) = Returns 1.
Proof.
  apply (clean_list_result (whitelist scenario) zeroed (regular scenario)
           [lit "# comment"; []; lit "!sshd"; lit "bash"] (lit "ba")
           eq_refl eq_refl).
  - repeat constructor; cbn; try lia; intuition discriminate.
  - exists (lit "bash"). split; [cbn; tauto|].
    split; [discriminate|]. split; [reflexivity|].
    right. split; [reflexivity|]. now exists [], (lit "sh").
Defined.

Lemma clean_list_empty_candidate (l : cstring) :
  is_entry_line l = true -> first_is bang l = false -> line_exempts [] l.
Proof.
  intros He Hb. apply is_entry_line_true in He. destruct He as (Hne & Hh).
  repeat split; try assumption. right. split; [exact Hb|]. now exists [], l.
Qed.

(** X2: the empty string is exempt as soon as the list (its lines all
    fitting one read) has one line without bang that is neither empty nor
    a comment: every string contains the empty string. *)
Theorem empty_candidate_is_exempt
        (fs : filesystem) (u : uninit) (f : file) (lines : list cstring)
        (l : cstring) :
  fs fileName = Some f -> f_read f = Some (text_of lines) ->
  Forall well_formed_line lines ->
  In l lines -> is_entry_line l = true -> first_is bang l = false ->
  check_wl_config fs u (Some []) = Returns 1.
Proof.
  intros Hf Hr Hwf Hin He Hb.
  rewrite (check_wl_config_opened fs u f _ _ Hf Hr), clean_list_scan by exact Hwf.
  replace (existsb _ _) with true; [reflexivity|].
  symmetry. apply clean_list_exists. exists l. split; [exact Hin|].
  now apply clean_list_empty_candidate.
Qed.

Lemma empty_candidate_is_exempt_witness :
  check_wl_config (whitelist scenario) zeroed (Some []) = Returns 1.
Proof.
  apply (empty_candidate_is_exempt (whitelist scenario) zeroed
           (regular scenario)
           [lit "# comment"; []; lit "!sshd"; lit "bash"] (lit "bash")
           eq_refl eq_refl).
  - repeat constructor; cbn; try lia; intuition discriminate.
  - cbn. tauto.
  - reflexivity.
  - reflexivity.
Defined.

(** *** The NULL candidate *)

Lemma wl_loop_null (u : uninit) (reads : list (list ascii)) :
  forall st,
    result (wl_loop u None st reads)
    = match wl_entries u st reads with
      | [] => Returns 0
      | _ :: _ => Undefined
      end.
Proof.
  induction reads as [|buf rest IH]; intros st; [reflexivity|].
  cbn [wl_loop wl_entries].
  destruct (read_line u st buf) as [st'|e st']; [apply IH | reflexivity].
Qed.

(** X3: handed the NULL pointer, [check_wl_config] on a list that opens
    returns 0 when no line of the list reaches the comparison and is
    undefined as soon as one does; it never returns 1. *)
Theorem null_candidate
        (fs : filesystem) (u : uninit) (f : file) (content : list ascii) :
  fs fileName = Some f -> f_read f = Some content ->
  (check_wl_config fs u None = Returns 0 <-> entries_of u content = [])
  /\ (check_wl_config fs u None = Undefined <-> entries_of u content <> [])
  /\ check_wl_config fs u None <> Returns 1.
Proof.
  intros Hf Hr. rewrite (check_wl_config_opened fs u f _ _ Hf Hr).
  unfold scan_file. rewrite wl_loop_null.
  fold (entries_of u content).
  destruct (entries_of u content); repeat split; congruence.
Qed.

Lemma null_candidate_witness :
  check_wl_config (whitelist (lit "# none" ++ [nl])) zeroed None = Returns 0
  /\ check_wl_config (whitelist scenario) zeroed None = Undefined.
Proof.
  split.
  - apply (null_candidate (whitelist (lit "# none" ++ [nl])) zeroed
             (regular (lit "# none" ++ [nl])) _ eq_refl eq_refl).
    reflexivity.
  - apply (null_candidate (whitelist scenario) zeroed (regular scenario)
             _ eq_refl eq_refl).
    vm_compute. discriminate.
Defined.

(** *** The shape of the reads *)

Lemma fgets_aux_shape (k : nat) :
  forall stream l r,
    fgets_aux k stream = (l, r) ->
    (List.length l <= k)%nat /\ ~ In nl (removelast l).
Proof.
  induction k as [|k IH]; intros stream l r; cbn [fgets_aux].
  - destruct stream; intros H; injection H as <- <-; cbn;
      (split; [lia | tauto]).
  - destruct stream as [|c rest].
    + intros H; injection H as <- <-. cbn. split; [lia | tauto].
    + destruct (Ascii.eqb c nl) eqn:E.
      * intros H; injection H as <- <-. cbn. split; [lia | tauto].
      * destruct (fgets_aux k rest) as [l' r'] eqn:E'.
        intros H; injection H as <- <-.
        destruct (IH _ _ _ E') as (Hlen & Hnl).
        split; [cbn; lia|].
        destruct l' as [|y l']; [cbn; tauto|].
        cbn [removelast]. intros [Hc | Hin].
        -- subst c. now rewrite Ascii.eqb_refl in E.
        -- now apply Hnl.
Qed.

Lemma fgets_loop_shape (n fuel : nat) :
  (2 <= n)%nat ->
  forall stream buf,
    In buf (fgets_loop fuel n stream) ->
    buf <> [] /\ (List.length buf <= n - 1)%nat /\ ~ In nl (removelast buf).
Proof.
  intros Hn. induction fuel as [|fuel IH]; intros stream buf; [intros []|].
  cbn [fgets_loop]. unfold fgets.
  destruct stream as [|c rest]; [intros []|].
  destruct (fgets_aux (n - 1) (c :: rest)) as [l r] eqn:E.
  intros [<- | Hin]; [|now apply (IH r)].
  destruct (fgets_aux_shape _ _ _ _ E) as (Hlen & Hnl).
  split; [|now split].
  destruct (n - 1)%nat as [|k] eqn:En; [lia|].
  cbn [fgets_aux] in E. destruct (Ascii.eqb c nl).
  - injection E as <- _. discriminate.
  - destruct (fgets_aux k rest). injection E as <- _. discriminate.
Qed.

(** X6: the reads of the loop cut the list into pieces that fit the
    buffer: put end to end they are the whole file, none is empty, none
    is longer than 127 bytes, and a line feed occurs in a read only as
    its last byte. *)
Theorem reads_fit_the_buffer (content : list ascii) :
  List.concat (fgets_all (bufsize - 1) content) = content
  /\ forall buf,
       In buf (fgets_all (bufsize - 1) content) ->
       buf <> []
       /\ (List.length buf + 1 < bufsize)%nat
       /\ ~ In nl (removelast buf).
Proof.
  split; [apply fgets_all_reads_everything|].
  intros buf Hin.
  destruct (fgets_loop_shape (bufsize - 1) _ ltac:(cbn; lia) _ _ Hin)
    as (Hne & Hlen & Hnl).
  split; [exact Hne|]. split; [unfold bufsize in *; lia | exact Hnl].
Qed.

(** *** What the test on [last] can drop *)

Lemma cstr_prefix (buf : list ascii) : exists rest, buf = cstr buf ++ rest.
Proof.
  induction buf as [|c buf (rest & IH)]; [now exists []|].
  cbn [cstr]. destruct (Ascii.eqb c nul).
  - now exists (c :: buf).
  - exists rest. cbn. now rewrite <- IH.
Qed.

Lemma removelast_app_nonempty (a b : list ascii) :
  b <> [] -> removelast (a ++ b) = a ++ removelast b.
Proof. intros H. now apply removelast_app. Qed.

Lemma whole_line_read (buf : list ascii) :
  ~ In nl (removelast buf) -> strstr (cstr buf) [nl] = true ->
  cstr buf = buf /\ exists l, buf = l ++ [nl].
Proof.
  intros Hshape Hnl. apply strstr_byte in Hnl.
  destruct (cstr_prefix buf) as (rest & Hbuf).
  assert (Hrest : rest = []).
  { destruct rest as [|x rest]; [reflexivity|]. exfalso. apply Hshape.
    rewrite Hbuf, removelast_app_nonempty by discriminate.
    apply in_or_app. now left. }
  subst rest. rewrite app_nil_r in Hbuf. split; [now symmetry|].
  rewrite <- Hbuf in Hnl.
  destruct (exists_last (l := buf)) as (l & x & Hl);
    [intros ->; contradiction|].
  exists l. rewrite Hl in Hnl, Hshape. rewrite removelast_last in Hshape.
  apply in_app_or in Hnl. destruct Hnl as [Hin | [<- | []]];
    [contradiction | exact Hl].
Qed.

Lemma entry_read_settles (u : uninit) (buf : list ascii) :
  (List.length buf <= bufsize - 2)%nat -> ~ In nl (removelast buf) ->
  strstr (cstr buf) [nl] = true ->
  last_byte u (snprintf_s (bufsize - 1)
                 (snprintf_s (bufsize - 1) (cstr buf))) = nl.
Proof.
  intros Hlen Hshape Hnl.
  destruct (whole_line_read buf Hshape Hnl) as (-> & l & Hl).
  unfold last_byte, snprintf_s.
  assert (Hfit : firstn (bufsize - 1 - 1) buf = buf)
    by (apply firstn_all2; unfold bufsize in *; lia).
  rewrite !Hfit, Hl. apply last_last.
Qed.

Section Dropped.

Variable u : uninit.

Lemma read_line_entry_read (st : wl_state) (buf : list ascii) :
  fits_buffer buf ->
  if is_entry_read buf
  then (exists st',
           last_byte u (last st') = nl
           /\ (read_line u st buf = Skip st'
               \/ read_line u st buf = Compare (entry_of_read buf) st')
           /\ (last_byte u (last st) = nl ->
               read_line u st buf = Compare (entry_of_read buf) st'))
  else (exists st', read_line u st buf = Skip st' /\ last st' = last st).
Proof.
  intros (Hlen & Hshape). unfold is_entry_read, read_line, is_entry_line.
  destruct (strstr (cstr buf) [nl]) eqn:Enl; cbn [negb andb];
    [|eexists; split; reflexivity].
  assert (Hne : (strlen (removelast (cstr buf)) =? 0)
                = is_empty (removelast (cstr buf)))
    by (destruct (removelast (cstr buf)); reflexivity).
  rewrite Hne. destruct (is_empty (removelast (cstr buf))); cbn [negb andb];
    [eexists; split; reflexivity|].
  destruct (first_is hash (removelast (cstr buf))); cbn [negb];
    [eexists; split; reflexivity|].
  pose proof (entry_read_settles u buf Hlen Hshape Enl) as Hset.
  destruct (negb (Ascii.eqb (last_byte u (last st)) nl)
            && (catch_bad_things st >? 0)) eqn:Eg.
  - eexists. split; [|split; [left; reflexivity|]].
    + exact Hset.
    + intros H. rewrite H, Ascii.eqb_refl in Eg. discriminate.
  - eexists. split; [|split; [right; reflexivity|]].
    + exact Hset.
    + reflexivity.
Qed.

Lemma wl_entries_settled (reads : list (list ascii)) :
  Forall fits_buffer reads ->
  forall st,
    last_byte u (last st) = nl ->
    wl_entries u st reads = map entry_of_read (filter is_entry_read reads).
Proof.
  induction 1 as [|buf reads Hfit _ IH]; intros st Hst; [reflexivity|].
  cbn [wl_entries filter].
  pose proof (read_line_entry_read st buf Hfit) as H.
  destruct (is_entry_read buf).
  - destruct H as (st' & Hset & _ & Hcmp). rewrite (Hcmp Hst).
    cbn [map]. f_equal. now apply IH.
  - destruct H as (st' & -> & Hlast). apply IH. now rewrite Hlast.
Qed.

Lemma wl_entries_drop_one (reads : list (list ascii)) :
  Forall fits_buffer reads ->
  forall st,
    wl_entries u st reads = map entry_of_read (filter is_entry_read reads)
    \/ wl_entries u st reads
       = map entry_of_read (tl (filter is_entry_read reads)).
Proof.
  induction 1 as [|buf reads Hfit Hrest IH]; intros st; [now left|].
  cbn [wl_entries filter].
  pose proof (read_line_entry_read st buf Hfit) as H.
  destruct (is_entry_read buf).
  - destruct H as (st' & Hset & [-> | ->] & _); cbn [tl map].
    + right. now apply wl_entries_settled.
    + left. f_equal. now apply wl_entries_settled.
  - destruct H as (st' & -> & _). apply IH.
Qed.

End Dropped.

Lemma fgets_all_fits (content : list ascii) :
  Forall fits_buffer (fgets_all (bufsize - 1) content).
Proof.
  apply Forall_forall. intros buf Hin.
  destruct (fgets_loop_shape (bufsize - 1) _ ltac:(cbn; lia) _ _ Hin)
    as (_ & Hlen & Hnl).
  split; [cbn in *; lia | exact Hnl].
Qed.

(** X7: the test on [last] and [catch_bad_things] drops at most one line
    of a list, and only the first one that holds a whole line which is
    neither empty nor a comment: the entries compared are those of all
    such reads, or of all but the first.  When the stale bytes in [last]
    end in a line feed, none is dropped. *)
Theorem at_most_the_first_entry_is_dropped
        (u : uninit) (content : list ascii) :
  let q := filter is_entry_read (fgets_all (bufsize - 1) content) in
  (entries_of u content = map entry_of_read q
   \/ entries_of u content = map entry_of_read (tl q))
  /\ (last_byte u (last_init u) = nl ->
      entries_of u content = map entry_of_read q).
Proof.
  intros q. split.
  - apply wl_entries_drop_one, fgets_all_fits.
  - intros H. apply wl_entries_settled; [apply fgets_all_fits | exact H].
Qed.

Lemma at_most_the_first_entry_is_dropped_witness :
  entries_of {| last_init := [nl]; below_last := nul |} entry_after_full_line
  = [{| e_mode := Substring; e_pattern := lit "bash" |}]
  /\ entries_of zeroed entry_after_full_line = [].
Proof.
  split.
  - rewrite (proj2 (at_most_the_first_entry_is_dropped
                      {| last_init := [nl]; below_last := nul |}
                      entry_after_full_line) eq_refl).
    vm_compute. reflexivity.
  - vm_compute. reflexivity.
Defined.

(** *** Lines added at the end *)

Lemma fgets_aux_app (k : nat) (more : list ascii) :
  forall stream l r,
    fgets_aux k stream = (l, r) ->
    In nl l \/ List.length l = k ->
    fgets_aux k (stream ++ more) = (l, r ++ more).
Proof.
  induction k as [|k IH]; intros stream l r; cbn [fgets_aux].
  - destruct stream; intros H _; injection H as <- <-; reflexivity.
  - destruct stream as [|c rest].
    + intros H; injection H as <- <-. intros [[] | H]; discriminate.
    + cbn [app fgets_aux]. destruct (Ascii.eqb c nl) eqn:E.
      * intros H _; injection H as <- <-. reflexivity.
      * destruct (fgets_aux k rest) as [l' r'] eqn:E'.
        intros H Hc; injection H as <- <-.
        rewrite (IH rest l' r' E'); [reflexivity|].
        destruct Hc as [[Hc | Hin] | Hlen].
        -- subst c. now rewrite Ascii.eqb_refl in E.
        -- now left.
        -- right. cbn in Hlen. lia.
Qed.

Lemma fgets_aux_short (k : nat) :
  forall stream l r,
    fgets_aux k stream = (l, r) ->
    ~ In nl l -> (List.length l < k)%nat -> r = [].
Proof.
  induction k as [|k IH]; intros stream l r; cbn [fgets_aux].
  - intros _ _ H. lia.
  - destruct stream as [|c rest]; [intros H; now injection H as <- <-|].
    destruct (Ascii.eqb c nl) eqn:E.
    + intros H; injection H as <- <-. apply Ascii.eqb_eq in E. subst c.
      intros Hnl. exfalso. apply Hnl. now left.
    + destruct (fgets_aux k rest) as [l' r'] eqn:E'.
      intros H Hnl Hlen; injection H as <- <-.
      apply (IH rest l' r' E'); [|cbn in Hlen; lia].
      intros Hin. apply Hnl. now right.
Qed.

Lemma fgets_aux_progress (k : nat) (c : ascii) (rest l r : list ascii) :
  fgets_aux (S k) (c :: rest) = (l, r) ->
  (List.length r < List.length (c :: rest))%nat.
Proof.
  intros E. pose proof (fgets_aux_split _ _ _ _ E) as Hs.
  cbn [fgets_aux] in E.
  assert (Hl : l <> []).
  { destruct (Ascii.eqb c nl).
    - injection E as <- _. discriminate.
    - destruct (fgets_aux k rest). injection E as <- _. discriminate. }
  rewrite Hs, length_app. destruct l; [congruence | cbn; lia].
Qed.

Lemma no_line_feed_no_strstr (l : list ascii) :
  ~ In nl l -> strstr (cstr l) [nl] = false.
Proof.
  intros H. destruct (strstr (cstr l) [nl]) eqn:E; [|reflexivity].
  exfalso. apply H, cstr_subset. now apply strstr_byte.
Qed.

Lemma wl_loop_appended (u : uninit) (c : cstring) (more : list ascii) :
  forall fuel fuel' stream st,
    (List.length stream <= fuel)%nat ->
    (List.length (stream ++ more) <= fuel')%nat ->
    result (wl_loop u (Some c) st (fgets_loop fuel (bufsize - 1) stream))
    = Returns 1 ->
    result (wl_loop u (Some c) st
              (fgets_loop fuel' (bufsize - 1) (stream ++ more)))
    = Returns 1.
Proof.
  induction fuel as [|fuel IH]; intros fuel' stream st Hf Hf';
    [intros H; discriminate H|].
  destruct stream as [|x rest]; [intros H; discriminate H|].
  destruct fuel' as [|fuel']; [cbn in Hf'; lia|].
  cbn [fgets_loop app]. unfold fgets.
  change (x :: rest ++ more) with ((x :: rest) ++ more).
  change (bufsize - 1 - 1)%nat with 127%nat.
  destruct (fgets_aux 127 (x :: rest)) as [l r] eqn:E.
  pose proof (fgets_aux_progress _ _ _ _ _ E) as Hprog.
  destruct (in_dec ascii_dec nl l) as [Hin | Hnot].
  2: destruct (Nat.eq_dec (List.length l) 127) as [Hlen | Hlen].
  3:{ (* the read ran into the end of the file *)
      destruct (fgets_aux_shape _ _ _ _ E) as (Hle & _).
      assert (r = []) by (apply (fgets_aux_short _ _ _ _ E Hnot); lia).
      subst r. cbn [wl_loop]. unfold read_line.
      rewrite (no_line_feed_no_strstr l Hnot). cbn [negb].
      destruct fuel; intros H; discriminate H. }
  all: rewrite (fgets_aux_app 127 more _ _ _ E) by tauto.
  all: cbn [wl_loop]; destruct (read_line u st l) as [st'|e st'];
    [ apply IH; [cbn in *; lia | rewrite length_app in *; cbn in *; lia]
    | destruct (entry_matches c e); [reflexivity|];
      cbn [result]; apply IH;
      [cbn in *; lia | rewrite length_app in *; cbn in *; lia] ].
Qed.

(** X8: bytes added at the end of the list never take an exemption away:
    a candidate for which [check_wl_config] returns 1 on a list gets 1 on
    every list that begins with the same bytes. *)
Theorem appended_lines_keep_exemptions
        (fs fs' : filesystem) (u : uninit) (f f' : file)
        (content more : list ascii) (c : cstring) :
  fs fileName = Some f -> f_read f = Some content ->
  fs' fileName = Some f' -> f_read f' = Some (content ++ more) ->
  check_wl_config fs u (Some c) = Returns 1 ->
  check_wl_config fs' u (Some c) = Returns 1.
Proof.
  intros Hf Hr Hf' Hr'.
  rewrite (check_wl_config_opened fs u f _ _ Hf Hr),
    (check_wl_config_opened fs' u f' _ _ Hf' Hr').
  unfold scan_file, fgets_all. now apply wl_loop_appended.
Qed.

Lemma appended_lines_keep_exemptions_witness :
  check_wl_config (whitelist (scenario ++ lit "zsh")) zeroed (Some (lit "ba"))
  = Returns 1.
Proof.
  apply (appended_lines_keep_exemptions
           (whitelist scenario) (whitelist (scenario ++ lit "zsh")) zeroed
           (regular scenario) (regular (scenario ++ lit "zsh"))
           scenario (lit "zsh") (lit "ba")); reflexivity.
Defined.

End MatcherFacts.

(** * Further properties of fork *)

Module ForkFacts.

Import C Shim More Inputs ShimFacts.

(** X9: whatever it meets, a call of [fork] ends by returning the value
    of the real fork or not at all, prints at most one score, prints it
    to the path held in [fileName], and the score is 1000 or -1000. *)
Theorem fork_run_shape (w : world) :
  (ret (fork w) = Undefined \/ ret (fork w) = Returns (org_fork w))
  /\ (List.length (written (fork w)) <= 1)%nat
  /\ forall path v,
       In (path, v) (written (fork w)) ->
       path = fileName (org_fork w) /\ (v = 1000 \/ v = -1000).
Proof.
  destruct (fork_tame w) as (Hret & Hw & Hlen).
  split; [exact Hret|]. split; [exact Hlen | exact Hw].
Qed.

(** *** The last slash and the tokens *)

Lemma strrchr_last (c : ascii) (s : cstring) :
  forall found,
    strrchr s c = Some found ->
    exists pre tail,
      s = pre ++ c :: tail /\ found = c :: tail /\ ~ In c tail.
Proof.
  induction s as [|x s IH]; intros found; cbn [strrchr]; [discriminate|].
  destruct (strrchr s c) as [found'|] eqn:E.
  - intros H; injection H as <-.
    destruct (IH _ eq_refl) as (pre & tail & -> & -> & Hnot).
    now exists (x :: pre), tail.
  - destruct (Ascii.eqb x c) eqn:Ex; [|discriminate].
    apply Ascii.eqb_eq in Ex. subst x.
    intros H; injection H as <-.
    exists [], s. repeat split. intros Hin.
    clear IH. induction s as [|y s IHs]; [contradiction|].
    cbn [strrchr] in E. destruct (strrchr s c); [discriminate|].
    destruct (Ascii.eqb y c) eqn:Ey; [discriminate|].
    destruct Hin as [-> | Hin]; [now rewrite Ascii.eqb_refl in Ey|].
    now apply IHs.
Qed.


Lemma split_pieces (d : ascii) (s : list ascii) :
  forall p, In p (split d s) -> ~ In d p /\ forall x, In x p -> In x s.
Proof.
  induction s as [|y s IH]; intros p; cbn [split].
  - intros [<- | []]. split; [tauto | intros x []].
  - destruct (Ascii.eqb y d) eqn:E.
    + intros [<- | Hin]; [split; [tauto | intros x []]|].
      destruct (IH p Hin) as (Hd & Hsub).
      split; [exact Hd | intros x Hx; right; now apply Hsub].
    + destruct (split d s) as [|piece more] eqn:Es.
      * intros [<- | []]. split.
        -- intros [-> | []]. now rewrite Ascii.eqb_refl in E.
        -- intros x [<- | []]. now left.
      * intros [<- | Hin].
        -- destruct (IH piece (or_introl eq_refl)) as (Hd & Hsub). split.
           ++ intros [-> | Hp]; [now rewrite Ascii.eqb_refl in E | tauto].
           ++ intros x [<- | Hx]; [now left | right; now apply Hsub].
        -- destruct (IH p (or_intror Hin)) as (Hd & Hsub).
           split; [exact Hd | intros x Hx; right; now apply Hsub].
Qed.

(** X10: the tokens that the slash branch cuts out of a record, after
    the last slash and at the spaces, are never empty and hold neither a
    space nor a slash. *)
Theorem tokens_hold_no_space_no_slash
        (cmdArg afterSlash token : cstring) :
  strrchr cmdArg slash = Some afterSlash ->
  In token (strtok_all space (tl afterSlash)) ->
  token <> [] /\ ~ In space token /\ ~ In slash token.
Proof.
  intros Hr Hin. apply strrchr_last in Hr.
  destruct Hr as (pre & tail & _ & -> & Hnot). cbn [tl] in Hin.
  unfold strtok_all in Hin. apply filter_In in Hin.
  destruct Hin as (Hin & Hne). apply split_pieces in Hin.
  destruct Hin as (Hsp & Hsub). split; [|split].
  - intros ->. discriminate Hne.
  - exact Hsp.
  - intros H. apply Hnot. now apply Hsub.
Qed.

Lemma tokens_hold_no_space_no_slash_witness :
  lit "sh" <> [] /\ ~ In space (lit "sh") /\ ~ In slash (lit "sh").
Proof.
  apply (tokens_hold_no_space_no_slash (lit "/bin/sh -c id") (lit "/sh -c id")).
  - reflexivity.
  - cbn. tauto.
Defined.

(** *** The records of the cmdline file *)

Lemma split_nonempty (d : ascii) (s : list ascii) : split d s <> [].
Proof.
  destruct s as [|y s]; cbn [split]; [discriminate|].
  destruct (Ascii.eqb y d); [discriminate|].
  destruct (split d s); discriminate.
Qed.

Lemma split_concat (d : ascii) (s : list ascii) :
  List.concat (map (fun p => p ++ [d]) (split d s)) = s ++ [d].
Proof.
  induction s as [|y s IH]; [reflexivity|]. cbn [split].
  destruct (Ascii.eqb y d) eqn:E.
  - apply Ascii.eqb_eq in E. subst y. cbn. now rewrite IH.
  - destruct (split d s) as [|piece more] eqn:Es;
      [now destruct (split_nonempty d s)|].
    cbn [map List.concat app] in *. now rewrite IH.
Qed.

Lemma split_ended (d : ascii) (s : list ascii) :
  split d (s ++ [d]) = split d s ++ [[]].
Proof.
  induction s as [|y s IH]; cbn [app split].
  - now rewrite Ascii.eqb_refl.
  - destruct (Ascii.eqb y d); [now rewrite IH|].
    rewrite IH. destruct (split d s) as [|piece more] eqn:Es;
      [now destruct (split_nonempty d s) | reflexivity].
Qed.

Lemma getdelim_all_concat (stream : list ascii) :
  List.concat (map (fun r => r ++ [nul]) (getdelim_all stream))
  = if is_empty (List.last (split nul stream) []) then stream
    else stream ++ [nul].
Proof.
  unfold getdelim_all.
  pose proof (split_concat nul stream) as Hc.
  pose proof (split_nonempty nul stream) as Hne.
  destruct (is_empty (List.last (split nul stream) [])) eqn:E; [|exact Hc].
  rewrite (app_removelast_last [] Hne) in Hc.
  destruct (List.last (split nul stream) []); [|discriminate].
  rewrite map_app, concat_app in Hc. cbn in Hc.
  now apply app_inv_tail in Hc.
Qed.

(** X11: the records that the [getdelim] loop is given hold no NUL, and
    put end to end, a NUL after each, they are the bytes of the file,
    with a NUL added when the file does not end in one; the loop body is
    never entered exactly when the file is empty; a file that ends in a
    NUL is read as the pieces before each NUL. *)
Theorem records_of_cmdline (content : list ascii) :
  let records := getdelim_all content in
  (forall r, In r records -> ~ In nul r)
  /\ (List.concat (map (fun r => r ++ [nul]) records) = content
      \/ List.concat (map (fun r => r ++ [nul]) records) = content ++ [nul])
  /\ (records = [] <-> content = [])
  /\ (forall body, content = body ++ [nul] ->
      records = split nul body
      /\ List.concat (map (fun r => r ++ [nul]) records) = content).
Proof.
  intros records. pose proof (getdelim_all_concat content) as Hc.
  fold records in Hc. split; [|split; [|split]].
  - intros r Hin. apply (split_pieces nul content r).
    unfold records, getdelim_all in Hin.
    destruct (is_empty _); [|exact Hin].
    pose proof (split_nonempty nul content) as Hne.
    rewrite (app_removelast_last [] Hne). apply in_or_app. now left.
  - destruct (is_empty _); [now left | now right].
  - split; [|intros ->; reflexivity].
    intros Hnil. rewrite Hnil in Hc. cbn in Hc.
    destruct (is_empty _); [now symmetry|].
    destruct content; discriminate.
  - intros body ->.
    assert (Hrec : records = split nul body).
    { unfold records, getdelim_all. rewrite split_ended, last_last.
      cbn [is_empty]. apply removelast_last. }
    split; [exact Hrec|]. rewrite Hrec. apply split_concat.
Qed.

Lemma records_of_cmdline_witness :
  getdelim_all (lit "/bin/sh" ++ [nul] ++ lit "-c" ++ [nul])
  = [lit "/bin/sh"; lit "-c"].
Proof.
  apply (proj2 (proj2 (proj2 (records_of_cmdline
                                (lit "/bin/sh" ++ [nul] ++ lit "-c" ++ [nul]))))
           (lit "/bin/sh" ++ [nul] ++ lit "-c")).
  reflexivity.
Defined.

(** *** Without a whitelist *)






(** *** Records without a leading slash *)





(** *** A record that begins with a slash *)





(** *** The two paths *)

Lemma digit_value_digit (d : Z) : 0 <= d < 10 -> digit_value (digit d) = d.
Proof.
  intros H. unfold digit_value, digit.
  rewrite nat_ascii_embedding by lia. lia.
Qed.

Lemma digit_is_no_minus (d : Z) :
  0 <= d < 10 -> Ascii.eqb (digit d) "-"%char = false.
Proof.
  intros H.
  assert (Hd : d = 0 \/ d = 1 \/ d = 2 \/ d = 3 \/ d = 4 \/ d = 5 \/ d = 6
               \/ d = 7 \/ d = 8 \/ d = 9) by lia.
  repeat (destruct Hd as [-> | Hd]; [reflexivity|]). now subst.
Qed.

Lemma number_snoc (s : cstring) (c : ascii) :
  number (s ++ [c]) = 10 * number s + digit_value c.
Proof. unfold number. now rewrite fold_left_app. Qed.

Lemma digits_step (fuel : nat) (n : Z) (acc : cstring) :
  digits (S fuel) n acc
  = if n <? 10 then digit (n mod 10) :: acc
    else digits fuel (n / 10) (digit (n mod 10) :: acc).
Proof. reflexivity. Qed.

(** [digits] writes the digits of [n] in front of [acc]. *)
Lemma digits_number (fuel : nat) :
  forall n acc,
    0 <= n < 10 ^ Z.of_nat (S fuel) ->
    exists d ds,
      digits (S fuel) n acc = (digit d :: ds) ++ acc
      /\ 0 <= d < 10
      /\ number (digit d :: ds) = n.
Proof.
  induction fuel as [|fuel IH]; intros n acc Hn;
    rewrite digits_step; destruct (n <? 10) eqn:E.
  1, 3: apply Z.ltb_lt in E; exists n, [];
    rewrite Z.mod_small by lia; split; [reflexivity|]; split; [lia|];
    unfold number; cbn [fold_left]; rewrite digit_value_digit; lia.
  - apply Z.ltb_ge in E. cbn in Hn. lia.
  - apply Z.ltb_ge in E.
    rewrite Nat2Z.inj_succ, Z.pow_succ_r in Hn by lia.
    destruct (IH (n / 10) (digit (n mod 10) :: acc)) as (d & ds & Hd & Hr & Hv).
    { split; [apply Z.div_pos; lia | apply Z.div_lt_upper_bound; lia]. }
    exists d, (ds ++ [digit (n mod 10)]).
    split; [rewrite Hd; cbn; now rewrite <- app_assoc|]. split; [exact Hr|].
    change (digit d :: ds ++ [digit (n mod 10)])
      with ((digit d :: ds) ++ [digit (n mod 10)]).
    rewrite number_snoc, Hv, digit_value_digit
      by (apply Z.mod_pos_bound; lia).
    pose proof (Z.div_mod n 10 ltac:(lia)). lia.
Qed.

Lemma atoi_dec (n : Z) : - 2 ^ 31 <= n < 2 ^ 31 -> atoi (dec n) = n.
Proof.
  intros Hn. unfold dec. destruct (n <? 0) eqn:E.
  - apply Z.ltb_lt in E.
    destruct (digits_number 9 (- n) []) as (d & ds & Hd & _ & Hv);
      [cbn; lia|].
    cbn [atoi]. rewrite Ascii.eqb_refl, Hd, app_nil_r, Hv. lia.
  - apply Z.ltb_ge in E.
    destruct (digits_number 9 n []) as (d & ds & Hd & Hr & Hv);
      [cbn; lia|].
    rewrite Hd, app_nil_r. cbn [atoi].
    now rewrite (digit_is_no_minus d Hr).
Qed.

Lemma paths_when_short (pid : Z) :
  0 < pid <= 99999 ->
  fileName pid = oom_path pid /\ cmdFileName pid = cmdline_path pid.
Proof.
  intros H. assert (Hd := dec_short pid H).
  unfold fileName, cmdFileName, snprintf_s.
  split; apply firstn_all2;
    rewrite ?oom_path_length, ?cmdline_path_length; cbn; lia.
Qed.

(** X16: two processes whose identifiers have at most five digits never
    share a path: different identifiers give different score paths and
    different cmdline paths. *)
Theorem distinct_processes_distinct_paths (pid pid' : Z) :
  0 < pid <= 99999 -> 0 < pid' <= 99999 -> pid <> pid' ->
  fileName pid <> fileName pid' /\ cmdFileName pid <> cmdFileName pid'.
Proof.
  intros H H' Hne.
  destruct (paths_when_short pid H) as (Ho & Hc).
  destruct (paths_when_short pid' H') as (Ho' & Hc').
  rewrite Ho, Ho', Hc, Hc'.
  assert (Hdec : dec pid <> dec pid').
  { intros Hdec. apply Hne.
    rewrite <- (atoi_dec pid), <- (atoi_dec pid') by lia.
    now rewrite Hdec. }
  unfold oom_path, cmdline_path.
  split; intros Heq; apply Hdec;
    apply app_inv_head in Heq; now apply app_inv_tail in Heq.
Qed.

Lemma distinct_processes_distinct_paths_witness :
  fileName 4242 <> fileName 4243 /\ cmdFileName 4242 <> cmdFileName 4243.
Proof.
  apply distinct_processes_distinct_paths; lia.
Defined.

End ForkFacts.
